(** * cppdi: a shallow embedding of [include/Container.hpp]

    The header defines one class, [cppdi::Container], a dependency-injection
    registry.  Services are registered under the hash code of their abstract
    type, as type-erased creators ([std::function<std::any()>]), and resolved
    with [GetService] / [GetRequiredService].

    The embedding is executable.  The creators are the lambda expressions of
    the header, one constructor per lambda; the code supplied by the
    application (factories, specializations of [CreateInstance]) is a small
    tree of the effects such code has on the container and the heap.  The
    state is passed explicitly: the heap, the containers of the process, the
    function-local [static] variables and a log of producer calls. *)

From stdpp Require Import base option numbers list strings gmap.

Module cppdi.

(** ** Types, handles and type-erased values *)

(** A type of the program, as a template argument: which type it is, and
    what the header reads from its [std::type_info], [typeid(T).name()] and
    [typeid(T).hash_code()].  Distinct types may share a hash code, and a
    name ([typeid] drops cv-qualifiers, for one). *)
Record type_info := TypeInfo { type_index : nat; name : string; hash_code : N }.

#[global] Instance type_info_eq_dec : EqDecision type_info.
Proof. solve_decision. Defined.

#[global] Instance type_info_countable : Countable type_info :=
  inj_countable' (λ t, (type_index t, name t, hash_code t))
                 (λ p, TypeInfo p.1.1 p.1.2 p.2)
                 (λ t, match t with TypeInfo _ _ _ => eq_refl end).

(** The address of a [Container] object, i.e. the value of [this]. *)
Definition cid := nat.

(** [std::shared_ptr<T>]: the identity of the object it owns, or [nullptr].
    Objects live on a heap that only grows, so an identity is never reused. *)
Definition loc := nat.
Definition shared_ptr := option loc.
Definition nullptr : shared_ptr := None.

(** An object of an application class: its dynamic type, a scalar payload and
    the handles it holds to other objects. *)
Record object := Object {
  dynamic_type : type_info;
  data : Z;
  links : list shared_ptr
}.

(** [std::any] holding a [std::shared_ptr<T>]: the type [T] it was made for
    and the handle.  [make_any T p] is [std::make_any<std::shared_ptr<T>>(p)],
    also the implicit conversion of a [std::shared_ptr<T>] to [std::any]. *)
Record any := make_any { any_type : type_info; any_value : shared_ptr }.

Inductive exception :=
  | bad_any_cast
  | out_of_range
  | runtime_error (what : string).

#[global] Instance exception_eq_dec : EqDecision exception.
Proof. solve_decision. Defined.

(** How a call ends: normally, by an exception, or in undefined behaviour. *)
Inductive outcome (A : Type) :=
  | Normal (a : A)
  | Throw (e : exception)
  | Undefined.
Arguments Normal {A} a.
Arguments Throw {A} e.
Arguments Undefined {A}.

(** ** Application code *)

(** The body of a factory or of a [CreateInstance] specialization: it may
    construct objects and resolve services from a container.  Application
    code that registers services or writes to an object while a creator runs
    is not covered. *)
Inductive prog :=
  | Return_ (p : shared_ptr)
  | make_shared (o : object) (k : shared_ptr → prog)
  | CallGetService (c : cid) (T : type_info) (k : shared_ptr → prog)
  | CallGetRequiredService (c : cid) (T : type_info) (k : shared_ptr → prog).

(** [std::function<std::shared_ptr<Type>()>] and
    [std::function<std::shared_ptr<Type>(const Container&)>].  The label is a
    ghost name, written to the call log when the function is called. *)
Record function0 := Function0 { label0 : nat; body0 : prog }.
Record function1 := Function1 { label1 : nat; body1 : cid → prog }.

(** What the application's classes provide: the constructor [Derived()], the
    constructor [Type(std::shared_ptr<Type>)] (which may read the heap through
    its argument) and the explicit specializations of [CreateInstance].
    An instantiation that needs a constructor the class does not have, or that
    fails the [static_assert] of [AddService<Base, Derived>], is rejected by
    the compiler and is no program. *)
Record classes := Classes {
  default_ctor : type_info → object;
  ptr_ctor : type_info → shared_ptr → list object → object;
  specialization : type_info → type_info → option (cid → prog)
}.

(** ** The container and the process state *)

(** The values of [std::function<std::any()>] stored in [_services]: the
    closures of the lambda expressions of the header, with their captures.
    - [TransientCreator]: the lambda of [GetTransientCreator<Base, Derived>];
    - [SingletonCreator]: the lambda of [GetSingletonCreator<Base, Derived>];
    - [InstanceCopier]: [[instance] { return std::make_shared<Type>(instance); }];
    - [InstanceReturner]: [[instance] { return instance; }];
    - [FunctionCreator]: the [std::function] passed to [AddTransient];
    - [StaticFunctionCreator]:
      [[creator] { static auto instance = creator(); return instance; }];
    - [ContainerFunctionCreator]: [[creator] { return creator( *this); }];
    - [StaticContainerFunctionCreator]:
      [[creator] { static auto instance = creator( *this); return instance; }].
    The capture list of the last two holds [creator] only, although the body
    names [this]; the closure is modelled with the [this] of the registration
    that made it. *)
Inductive creator :=
  | TransientCreator (Base Derived : type_info) (this : cid)
  | SingletonCreator (Base Derived : type_info) (this : cid)
  | InstanceCopier (Type_ : type_info) (instance : shared_ptr)
  | InstanceReturner (Type_ : type_info) (instance : shared_ptr)
  | FunctionCreator (Type_ : type_info) (creator : function0)
  | StaticFunctionCreator (Type_ : type_info) (creator : function0)
  | ContainerFunctionCreator (Type_ : type_info) (creator : function1) (this : cid)
  | StaticContainerFunctionCreator (Type_ : type_info) (creator : function1) (this : cid).

Record Container := MkContainer {
  _services : gmap N creator;
  _singletons : gmap N any
}.

Definition empty_container : Container := MkContainer ∅ ∅.

(** The two [static auto instance] variables.  Each belongs to the call
    operator of a closure type, and there is one closure type per
    instantiation of the enclosing [AddSingleton<Type>] overload: the variable
    is indexed by the overload and by [Type], not by a container. *)
Inductive static_site :=
  | in_AddSingleton_function
  | in_AddSingleton_container_function.

#[global] Instance static_site_eq_dec : EqDecision static_site.
Proof. solve_decision. Defined.

#[global] Instance static_site_countable : Countable static_site :=
  inj_countable' (λ s, match s with
                       | in_AddSingleton_function => false
                       | in_AddSingleton_container_function => true
                       end)
                 (λ b : bool, if b then in_AddSingleton_container_function
                              else in_AddSingleton_function)
                 (λ s, match s with
                       | in_AddSingleton_function => eq_refl
                       | in_AddSingleton_container_function => eq_refl
                       end).

(** A [static] local that control has reached: being initialized, or
    initialized.  One that control has not reached has no entry. *)
Inductive static_slot :=
  | initializing
  | initialized (instance : shared_ptr).

Inductive event :=
  | CreateInstance_called (Base Derived : type_info) (container : cid)
  | function_called (label : nat).

#[global] Instance event_eq_dec : EqDecision event.
Proof. solve_decision. Defined.

Record World := MkWorld {
  heap : list object;
  containers : gmap cid Container;
  statics : gmap (static_site * type_info) static_slot;
  calls : list event
}.

Definition empty_world : World := MkWorld [] ∅ ∅ [].

(** A container that was never written to is a default-constructed one. *)
Definition the_container (w : World) (c : cid) : Container :=
  default empty_container (containers w !! c).

Definition set_heap (h : list object) (w : World) : World :=
  MkWorld h (containers w) (statics w) (calls w).
Definition set_container (c : cid) (C : Container) (w : World) : World :=
  MkWorld (heap w) (<[c := C]> (containers w)) (statics w) (calls w).
Definition set_statics (s : gmap (static_site * type_info) static_slot)
    (w : World) : World :=
  MkWorld (heap w) (containers w) s (calls w).
Definition set_calls (l : list event) (w : World) : World :=
  MkWorld (heap w) (containers w) (statics w) l.

(** ** Computations

    A computation runs in a world and ends in an outcome and a world; [None]
    is the interpreter running out of fuel. *)
Definition M (A : Type) : Type := World → option (outcome A * World).

Definition ret {A} (a : A) : M A := λ w, Some (Normal a, w).
Definition throw {A} (e : exception) : M A := λ w, Some (Throw e, w).
Definition bind {A B} (m : M A) (f : A → M B) : M B := λ w,
  match m w with
  | Some (Normal a, w') => f a w'
  | Some (Throw e, w') => Some (Throw e, w')
  | Some (Undefined, w') => Some (Undefined, w')
  | None => None
  end.

Notation "'let*' x := m 'in' f" := (bind m (λ x, f))
  (at level 10, x name, m at level 100, f at level 200, only parsing).

(** Allocation of a new object ([std::make_shared]). *)
Definition alloc (o : object) : M shared_ptr := λ w,
  Some (Normal (Some (length (heap w))), set_heap (heap w ++ [o]) w).

Definition log (e : event) : M unit := λ w,
  Some (Normal tt, set_calls (calls w ++ [e]) w).

(** [std::any_cast<std::shared_ptr<Base>>(a)], by value: throws on a type
    mismatch. *)
Definition any_cast (Base : type_info) (a : any) : M shared_ptr :=
  if decide (any_type a = Base) then ret (any_value a) else throw bad_any_cast.

(** The body of [GetRequiredService<Base>] around its call of
    [GetService<Base>]. *)
Definition required (Base : type_info) (GetService_Base : M shared_ptr)
    : M shared_ptr :=
  let* service := GetService_Base in
  match service with
  | None =>
      throw (runtime_error ("No implementation registered for " +:+ name Base))
  | Some _ => ret service
  end.

(** Running application code; [GetService] is the container's resolution. *)
Fixpoint exec (GetService : cid → type_info → M shared_ptr) (p : prog)
    : M shared_ptr :=
  match p with
  | Return_ v => ret v
  | make_shared o k => let* v := alloc o in exec GetService (k v)
  | CallGetService c T k => let* v := GetService c T in exec GetService (k v)
  | CallGetRequiredService c T k =>
      let* v := required T (GetService c T) in exec GetService (k v)
  end.

(** [CreateInstance<Base, Derived>(container)]: the primary template, unless
    the application specialized it. *)
Definition CreateInstance (E : classes) (Base Derived : type_info)
    (container : cid) : prog :=
  match specialization E Base Derived with
  | Some f => f container
  | None => make_shared (default_ctor E Derived) Return_
  end.

Definition call0 (GetService : cid → type_info → M shared_ptr)
    (f : function0) : M shared_ptr :=
  let* _ := log (function_called (label0 f)) in exec GetService (body0 f).

Definition call1 (GetService : cid → type_info → M shared_ptr)
    (f : function1) (container : cid) : M shared_ptr :=
  let* _ := log (function_called (label1 f)) in
  exec GetService (body1 f container).

(** [static auto instance = init;  return instance;] for the variable of
    [site] and [Type_].  The initializer runs when control first passes the
    declaration; if it throws, the variable stays uninitialized; re-entering
    the declaration during the initialization is undefined. *)
Definition static_instance (site : static_site) (Type_ : type_info)
    (init : M shared_ptr) : M shared_ptr := λ w,
  match statics w !! (site, Type_) with
  | Some (initialized instance) => Some (Normal instance, w)
  | Some initializing => Some (Undefined, w)
  | None =>
      match init (set_statics (<[(site, Type_) := initializing]> (statics w)) w) with
      | Some (Normal instance, w') =>
          Some (Normal instance,
                set_statics (<[(site, Type_) := initialized instance]> (statics w')) w')
      | Some (Throw e, w') =>
          Some (Throw e, set_statics (delete (site, Type_) (statics w')) w')
      | Some (Undefined, w') => Some (Undefined, w')
      | None => None
      end
  end.

(** The lambda of [GetTransientCreator<Base, Derived>]. *)
Definition transient_creator (E : classes)
    (GetService : cid → type_info → M shared_ptr)
    (Base Derived : type_info) (this : cid) : M any :=
  let* _ := log (CreateInstance_called Base Derived this) in
  let* p := exec GetService (CreateInstance E Base Derived this) in
  ret (make_any Base p).

(** [_singletons.emplace(key, a)] on the container [this]: no effect when the
    key is present. *)
Definition emplace_singleton (this : cid) (key : N) (a : any) : M unit := λ w,
  let C := the_container w this in
  match _singletons C !! key with
  | Some _ => Some (Normal tt, w)
  | None =>
      Some (Normal tt,
            set_container this (MkContainer (_services C) (<[key := a]> (_singletons C))) w)
  end.

(** [_singletons.at(key)]. *)
Definition singleton_at (this : cid) (key : N) : M any := λ w,
  match _singletons (the_container w this) !! key with
  | Some a => Some (Normal a, w)
  | None => Some (Throw out_of_range, w)
  end.

(** The lambda of [GetSingletonCreator<Base, Derived>]. *)
Definition singleton_creator (E : classes)
    (GetService : cid → type_info → M shared_ptr)
    (Base Derived : type_info) (this : cid) : M any := λ w,
  let key := hash_code Base in
  match _singletons (the_container w this) !! key with
  | None =>
      (let* singletonService := transient_creator E GetService Base Derived this in
       let* _ := emplace_singleton this key singletonService in
       singleton_at this key) w
  | Some _ => singleton_at this key w
  end.

(** [it->second()]: calling a stored creator. *)
Definition invoke (E : classes) (GetService : cid → type_info → M shared_ptr)
    (cr : creator) : M any :=
  match cr with
  | TransientCreator Base Derived this =>
      transient_creator E GetService Base Derived this
  | SingletonCreator Base Derived this =>
      singleton_creator E GetService Base Derived this
  | InstanceCopier Type_ instance =>
      let* p := (λ w, alloc (ptr_ctor E Type_ instance (heap w)) w) in
      ret (make_any Type_ p)
  | InstanceReturner Type_ instance => ret (make_any Type_ instance)
  | FunctionCreator Type_ creator =>
      let* p := call0 GetService creator in ret (make_any Type_ p)
  | StaticFunctionCreator Type_ creator =>
      let* instance := static_instance in_AddSingleton_function Type_
                         (call0 GetService creator) in
      ret (make_any Type_ instance)
  | ContainerFunctionCreator Type_ creator this =>
      let* p := call1 GetService creator this in ret (make_any Type_ p)
  | StaticContainerFunctionCreator Type_ creator this =>
      let* instance := static_instance in_AddSingleton_container_function Type_
                         (call1 GetService creator this) in
      ret (make_any Type_ instance)
  end.

(** ** Resolution *)

(** The body of [GetService<Base>] on the container [c]; [GetService] is
    what the creators and the application code call back. *)
Definition GetService_body (E : classes)
    (GetService : cid → type_info → M shared_ptr)
    (c : cid) (Base : type_info) : M shared_ptr := λ w,
  let key := hash_code Base in
  match _services (the_container w c) !! key with
  | Some it_second =>
      (let* a := invoke E GetService it_second in any_cast Base a) w
  | None => Some (Normal nullptr, w)
  end.

(** [GetService<Base>()].  A factory may resolve services, whose factories
    may resolve services, without bound: [fuel] bounds the nesting. *)
Fixpoint GetService (E : classes) (fuel : nat)
    : cid → type_info → M shared_ptr :=
  match fuel with
  | 0 => λ _ _ _, None
  | S fuel' => GetService_body E (GetService E fuel')
  end.

Arguments GetService : simpl never.

(** [GetRequiredService<Base>()]. *)
Definition GetRequiredService (E : classes) (fuel : nat) (c : cid)
    (Base : type_info) : M shared_ptr :=
  required Base (GetService E fuel c Base).

(** [n] consecutive calls of [GetService<Base>()] on [c], with the handles
    they return. *)
Fixpoint GetService_times (E : classes) (fuel : nat) (n : nat) (c : cid)
    (Base : type_info) : M (list shared_ptr) :=
  match n with
  | 0 => ret []
  | S n' =>
      let* p := GetService E fuel c Base in
      let* ps := GetService_times E fuel n' c Base in
      ret (p :: ps)
  end.

(** ** Registration *)

(** [_services.emplace(key, serviceCreator)] on the container [c]: no effect
    when the key is present. *)
Definition emplace_service (c : cid) (key : N) (serviceCreator : creator)
    (w : World) : World :=
  let C := the_container w c in
  match _services C !! key with
  | Some _ => w
  | None =>
      set_container c (MkContainer (<[key := serviceCreator]> (_services C)) (_singletons C)) w
  end.

Definition AddService_Base_Derived (Base Derived : type_info) (c : cid)
    (serviceCreator : creator) : World → World :=
  emplace_service c (hash_code Base) serviceCreator.

Definition AddService_Type (Type_ : type_info) (c : cid)
    (serviceCreator : creator) : World → World :=
  emplace_service c (hash_code Type_) serviceCreator.

Definition GetTransientCreator (Base Derived : type_info) (this : cid)
    : creator := TransientCreator Base Derived this.

Definition GetSingletonCreator (Base Derived : type_info) (this : cid)
    : creator := SingletonCreator Base Derived this.

(** The eight overloads, in the order of the header. *)
Definition AddTransient (Base Derived : type_info) (c : cid) : World → World :=
  AddService_Base_Derived Base Derived c (GetTransientCreator Base Derived c).

Definition AddSingleton (Base Derived : type_info) (c : cid) : World → World :=
  AddService_Base_Derived Base Derived c (GetSingletonCreator Base Derived c).

Definition AddTransient_instance (Type_ : type_info) (instance : shared_ptr)
    (c : cid) : World → World :=
  AddService_Type Type_ c (InstanceCopier Type_ instance).

Definition AddSingleton_instance (Type_ : type_info) (instance : shared_ptr)
    (c : cid) : World → World :=
  AddService_Type Type_ c (InstanceReturner Type_ instance).

Definition AddTransient_function (Type_ : type_info) (creator : function0)
    (c : cid) : World → World :=
  AddService_Type Type_ c (FunctionCreator Type_ creator).

Definition AddSingleton_function (Type_ : type_info) (creator : function0)
    (c : cid) : World → World :=
  AddService_Type Type_ c (StaticFunctionCreator Type_ creator).

(** The lambdas of the next two overloads capture [creator] only and name
    [this]: they are ill-formed when instantiated, and no program built from
    the header makes these registrations.  The definitions record what the
    lambdas would do with [this] captured. *)
Definition AddTransient_container_function (Type_ : type_info)
    (creator : function1) (c : cid) : World → World :=
  AddService_Type Type_ c (ContainerFunctionCreator Type_ creator c).

Definition AddSingleton_container_function (Type_ : type_info)
    (creator : function1) (c : cid) : World → World :=
  AddService_Type Type_ c (StaticContainerFunctionCreator Type_ creator c).

(** A registration call, to quantify over the overloads. *)
Inductive registration :=
  | transient_type (Base Derived : type_info)
  | singleton_type (Base Derived : type_info)
  | transient_instance (Type_ : type_info) (instance : shared_ptr)
  | singleton_instance (Type_ : type_info) (instance : shared_ptr)
  | transient_function (Type_ : type_info) (creator : function0)
  | singleton_function (Type_ : type_info) (creator : function0)
  | transient_container_function (Type_ : type_info) (creator : function1)
  | singleton_container_function (Type_ : type_info) (creator : function1).

Definition register (r : registration) (c : cid) : World → World :=
  match r with
  | transient_type Base Derived => AddTransient Base Derived c
  | singleton_type Base Derived => AddSingleton Base Derived c
  | transient_instance Type_ instance => AddTransient_instance Type_ instance c
  | singleton_instance Type_ instance => AddSingleton_instance Type_ instance c
  | transient_function Type_ creator => AddTransient_function Type_ creator c
  | singleton_function Type_ creator => AddSingleton_function Type_ creator c
  | transient_container_function Type_ creator =>
      AddTransient_container_function Type_ creator c
  | singleton_container_function Type_ creator =>
      AddSingleton_container_function Type_ creator c
  end.

(** The abstract type a registration is for. *)
Definition service_type (r : registration) : type_info :=
  match r with
  | transient_type Base _ | singleton_type Base _ => Base
  | transient_instance Type_ _ | singleton_instance Type_ _
  | transient_function Type_ _ | singleton_function Type_ _
  | transient_container_function Type_ _
  | singleton_container_function Type_ _ => Type_
  end.

(** The creator a registration on [c] passes to [AddService]. *)
Definition creator_of (r : registration) (c : cid) : creator :=
  match r with
  | transient_type Base Derived => GetTransientCreator Base Derived c
  | singleton_type Base Derived => GetSingletonCreator Base Derived c
  | transient_instance Type_ instance => InstanceCopier Type_ instance
  | singleton_instance Type_ instance => InstanceReturner Type_ instance
  | transient_function Type_ creator => FunctionCreator Type_ creator
  | singleton_function Type_ creator => StaticFunctionCreator Type_ creator
  | transient_container_function Type_ creator =>
      ContainerFunctionCreator Type_ creator c
  | singleton_container_function Type_ creator =>
      StaticContainerFunctionCreator Type_ creator c
  end.

Definition is_singleton (r : registration) : bool :=
  match r with
  | singleton_type _ _ | singleton_instance _ _
  | singleton_function _ _ | singleton_container_function _ _ => true
  | _ => false
  end.

(** ** State invariants *)

(** The closures of [GetSingletonCreator] in [_services] of a container [c]
    captured [c] and sit under the hash code of their [Base]; an entry of
    [_singletons] was put there by the closure stored under the same key and
    holds a handle of that closure's [Base]. *)
Definition cache_consistent (w : World) : Prop :=
  (∀ c key Base Derived this,
     _services (the_container w c) !! key = Some (SingletonCreator Base Derived this) →
     this = c ∧ key = hash_code Base) ∧
  (∀ c key a,
     _singletons (the_container w c) !! key = Some a →
     ∃ Base Derived,
       _services (the_container w c) !! key = Some (SingletonCreator Base Derived c) ∧
       any_type a = Base).

(** What a resolution keeps: the registrations of every container, and the
    consistency of the caches. *)
Definition preserves (w w' : World) : Prop :=
  (∀ c, _services (the_container w' c) = _services (the_container w c)) ∧
  (cache_consistent w → cache_consistent w').

Definition M_preserves {A} (m : M A) : Prop :=
  ∀ w r w', m w = Some (r, w') → preserves w w'.

(** The states of a process: it starts with nothing, the application
    constructs objects, registers services and resolves them. *)
Inductive reachable : World → Prop :=
  | reachable_empty : reachable empty_world
  | reachable_new o w :
      reachable w → reachable (set_heap (heap w ++ [o]) w)
  | reachable_register r c w :
      reachable w → reachable (register r c w)
  | reachable_GetService E fuel c Base w r w' :
      reachable w → GetService E fuel c Base w = Some (r, w') → reachable w'.

(** [m'] ends as [m] does wherever [m] ends: [m'] is [m] with at least as
    much fuel. *)
Definition M_le {A} (m m' : M A) : Prop :=
  ∀ w r, m w = Some r → m' w = Some r.

(** ** Example programs

    A small application, used to run the definitions. *)

(** Two types whose hash codes collide. *)
Definition IAlpha : type_info := TypeInfo 0 "IAlpha" 5.
Definition IBeta : type_info := TypeInfo 1 "IBeta" 5.
Definition Alpha : type_info := TypeInfo 2 "Alpha" 6.

Definition IService : type_info := TypeInfo 3 "IService" 11.
Definition Service : type_info := TypeInfo 4 "Service" 12.
Definition IInner : type_info := TypeInfo 5 "IInner" 21.
Definition Inner : type_info := TypeInfo 6 "Inner" 22.
Definition IOuter : type_info := TypeInfo 7 "IOuter" 31.
Definition Outer : type_info := TypeInfo 8 "Outer" 32.
Definition Node : type_info := TypeInfo 9 "Node" 41.

(** Every class is default-constructible, with payload 0 and no links; the
    constructor from a handle builds an object that links to its argument
    (as [Node(std::shared_ptr<Node> next)] does); nothing is specialized. *)
Definition app : classes :=
  Classes (λ T, Object T 0 []) (λ T p _, Object T 0 [p]) (λ _ _, None).

(** [[] { return std::make_shared<Service>(n); }] *)
Definition make_service (label : nat) (n : Z) : function0 :=
  Function0 label (make_shared (Object Service n []) Return_).

(** [[p] { return p; }] *)
Definition return_handle (label : nat) (p : shared_ptr) : function0 :=
  Function0 label (Return_ p).

(** [[](const Container& c) { return std::make_shared<Outer>(c.GetService<IInner>()); }] *)
Definition make_outer (label : nat) : function1 :=
  Function1 label (λ c,
    CallGetService c IInner (λ inner,
      make_shared (Object Outer 0 [inner]) Return_)).

(** [[](const Container&) { return std::make_shared<Service>(n); }] *)
Definition make_service1 (label : nat) (n : Z) : function1 :=
  Function1 label (λ _, make_shared (Object Service n []) Return_).

(** Container 0 with [Service] registered for [IService], transient. *)
Definition transient_service : World :=
  AddTransient IService Service 0 empty_world.

(** Container 0 with a transient factory for [IService] that returns
    [nullptr]. *)
Definition null_factory : World :=
  AddTransient_function IService (return_handle 1 nullptr) 0 empty_world.

(** Container 0 with [Alpha] registered for [IAlpha], transient; [IBeta],
    which has the hash code of [IAlpha], is not registered. *)
Definition alpha_registered : World :=
  AddTransient IAlpha Alpha 0 empty_world.

(** The state after one resolution of [IAlpha] on [alpha_registered]. *)
Definition alpha_resolved : World :=
  set_heap [Object Alpha 0 []]
    (set_calls [CreateInstance_called IAlpha Alpha 0] alpha_registered).

(** Two containers, 0 and 1; each registers its own factory for [IService]
    as a singleton. *)
Definition two_containers_function : World :=
  AddSingleton_function IService (make_service 2 200) 1
    (AddSingleton_function IService (make_service 1 100) 0 empty_world).

Definition two_containers_container_function : World :=
  AddSingleton_container_function IService (make_service1 2 200) 1
    (AddSingleton_container_function IService (make_service1 1 100) 0 empty_world).

(** Two containers, 0 and 1; each registers [Inner] for [IInner] as a
    singleton, and for [IOuter] a registry-aware singleton factory that
    resolves [IInner] from the container it receives. *)
Definition two_compositions : World :=
  AddSingleton_container_function IOuter (make_outer 2) 1
    (AddSingleton IInner Inner 1
       (AddSingleton_container_function IOuter (make_outer 1) 0
          (AddSingleton IInner Inner 0 empty_world))).

(** A [Node] with payload 7 at address 0, registered on container 0 as the
    instance of a transient service. *)
Definition node_instance_transient : World :=
  AddTransient_instance Node (Some 0) 0 (set_heap [Object Node 7 []] empty_world).

(** ** Evolution of the state *)

(** A later state of the process: the application constructs objects,
    registers services and resolves them, in any order. *)
Inductive evolves : World → World → Prop :=
  | evolves_refl w : evolves w w
  | evolves_new o w w' :
      evolves (set_heap (heap w ++ [o]) w) w' → evolves w w'
  | evolves_register r c w w' :
      evolves (register r c w) w' → evolves w w'
  | evolves_GetService E fuel c Base w r w1 w' :
      GetService E fuel c Base w = Some (r, w1) → evolves w1 w' → evolves w w'.

(** [w'] has everything [w] has: the registrations and the cached singletons
    of every container, and the initialized [static] variables. *)
Definition extends (w w' : World) : Prop :=
  (∀ c, _services (the_container w c) ⊆ _services (the_container w' c)) ∧
  (∀ c, _singletons (the_container w c) ⊆ _singletons (the_container w' c)) ∧
  (∀ k p, statics w !! k = Some (initialized p) →
          statics w' !! k = Some (initialized p)).

Definition M_extends {A} (m : M A) : Prop :=
  ∀ w r w', m w = Some (r, w') → extends w w'.

(** A sequence of registrations, each on its container. *)
Definition register_all (rs : list (registration * cid)) (w : World) : World :=
  foldl (λ w rc, register rc.1 rc.2 w) w rs.

(** ** More example programs *)

(** [[&c] { return std::make_shared<C>(c.GetService<Dep>()); }], a
    zero-argument factory that holds a reference to the container [c]. *)
Definition make_from_container (label : nat) (c : cid) (Dep : type_info)
    (mk : shared_ptr → object) : function0 :=
  Function0 label (CallGetService c Dep (λ dep, make_shared (mk dep) Return_)).

(** [[&c] { return std::make_shared<C>(c.GetRequiredService<Dep>()); }] *)
Definition make_from_required (label : nat) (c : cid) (Dep : type_info)
    (mk : shared_ptr → object) : function0 :=
  Function0 label
    (CallGetRequiredService c Dep (λ dep, make_shared (mk dep) Return_)).

(** An application that specializes [CreateInstance<IService, Service>] to
    resolve [IService] from the container it is given. *)
Definition circular_app : classes :=
  Classes (λ T, Object T 0 []) (λ T p _, Object T 0 [p])
    (λ Base Derived,
       if decide (Base = IService ∧ Derived = Service)
       then Some (λ c, CallGetService c IService
                         (λ p, make_shared (Object Service 0 [p]) Return_))
       else None).

(** Container 0 with [Service] registered for [IService], singleton. *)
Definition singleton_service : World :=
  AddSingleton IService Service 0 empty_world.

(** Container 0 with a singleton factory for [IOuter] that requires
    [IInner], which is not registered. *)
Definition outer_without_inner : World :=
  AddSingleton_function IOuter
    (make_from_required 1 0 IInner (λ dep, Object Outer 0 [dep])) 0 empty_world.

(** Container 0 with a singleton factory for [IService] that resolves
    [IService] from container 0. *)
Definition self_dependent_factory : World :=
  AddSingleton_function IService
    (make_from_container 1 0 IService (λ dep, Object Service 0 [dep])) 0
    empty_world.

(** * Properties *)

(** ** The state after a write *)

Lemma the_container_set_heap h w c :
  the_container (set_heap h w) c = the_container w c.
Proof. reflexivity. Qed.

Lemma the_container_set_calls l w c :
  the_container (set_calls l w) c = the_container w c.
Proof. reflexivity. Qed.

Lemma the_container_set_statics s w c :
  the_container (set_statics s w) c = the_container w c.
Proof. reflexivity. Qed.

Lemma the_container_set_container_eq C w c :
  the_container (set_container c C w) c = C.
Proof. unfold the_container, set_container. simpl. by rewrite lookup_insert_eq. Qed.

Lemma the_container_set_container_ne C w c c' :
  c ≠ c' → the_container (set_container c C w) c' = the_container w c'.
Proof.
  intros Hne. unfold the_container, set_container. simpl.
  by rewrite lookup_insert_ne.
Qed.

Lemma GetService_unfold E fuel c Base w :
  GetService E (S fuel) c Base w
  = GetService_body E (GetService E fuel) c Base w.
Proof. reflexivity. Qed.

(** A duplicate key leaves the world as it is. *)
Lemma emplace_service_present c key cr cr0 w :
  _services (the_container w c) !! key = Some cr0 →
  emplace_service c key cr w = w.
Proof. intros H. unfold emplace_service. by rewrite H. Qed.

Lemma emplace_service_absent c key cr w :
  _services (the_container w c) !! key = None →
  _services (the_container (emplace_service c key cr w) c) !! key = Some cr.
Proof.
  intros H. unfold emplace_service. rewrite H.
  rewrite the_container_set_container_eq. simpl. apply lookup_insert_eq.
Qed.

Lemma register_emplace r c w :
  register r c w = emplace_service c (hash_code (service_type r)) (creator_of r c) w.
Proof. by destruct r. Qed.

(** Registration writes [_services] of one container and nothing else. *)
Lemma emplace_service_frame c key cr w :
  let w' := emplace_service c key cr w in
  heap w' = heap w ∧ calls w' = calls w ∧ statics w' = statics w ∧
  ∀ c', _singletons (the_container w' c') = _singletons (the_container w c').
Proof.
  unfold emplace_service. destruct (_services (the_container w c) !! key); simpl.
  - done.
  - repeat split. intros c'. destruct (decide (c = c')) as [<-|Hne].
    + by rewrite the_container_set_container_eq.
    + by rewrite the_container_set_container_ne.
Qed.

(** ** What resolutions preserve *)

Lemma bind_inv {A B} (m : M A) (f : A → M B) w r w' :
  bind m f w = Some (r, w') →
  (∃ a w1, m w = Some (Normal a, w1) ∧ f a w1 = Some (r, w')) ∨
  (∃ e, m w = Some (Throw e, w') ∧ r = Throw e) ∨
  (m w = Some (Undefined, w') ∧ r = Undefined).
Proof.
  unfold bind. destruct (m w) as [[[a|e|] w1]|]; intros H.
  - left. eauto.
  - right. left. exists e. by simplify_eq.
  - right. right. by simplify_eq.
  - done.
Qed.

Lemma preserves_refl w : preserves w w.
Proof. by split. Qed.

Lemma preserves_trans w1 w2 w3 :
  preserves w1 w2 → preserves w2 w3 → preserves w1 w3.
Proof.
  intros [Hs1 Hc1] [Hs2 Hc2]. split.
  - intros c. by rewrite Hs2, Hs1.
  - auto.
Qed.

(** A write that leaves every container as it is. *)
Lemma preserves_same_containers w w' :
  (∀ c, the_container w' c = the_container w c) → preserves w w'.
Proof.
  intros Hsame. split.
  - intros c. by rewrite Hsame.
  - intros [H1 H2]. split.
    + intros c key B D this. rewrite Hsame. apply H1.
    + intros c key a. rewrite Hsame. apply H2.
Qed.

Lemma M_preserves_ret {A} (a : A) : M_preserves (ret a).
Proof. intros w r w' H. unfold ret in H. simplify_eq. apply preserves_refl. Qed.

Lemma M_preserves_throw {A} e : M_preserves (@throw A e).
Proof. intros w r w' H. unfold throw in H. simplify_eq. apply preserves_refl. Qed.

Lemma M_preserves_bind {A B} (m : M A) (f : A → M B) :
  M_preserves m → (∀ a, M_preserves (f a)) → M_preserves (bind m f).
Proof.
  intros Hm Hf w r w' H.
  destruct (bind_inv _ _ _ _ _ H) as [(a & w1 & H1 & H2)|[(e & H1 & _)|[H1 _]]].
  - eapply preserves_trans; [by eapply Hm | by eapply Hf].
  - by eapply Hm.
  - by eapply Hm.
Qed.

Lemma M_preserves_alloc o : M_preserves (alloc o).
Proof.
  intros w r w' H. unfold alloc in H. simplify_eq.
  by apply preserves_same_containers.
Qed.

Lemma M_preserves_log e : M_preserves (log e).
Proof.
  intros w r w' H. unfold log in H. simplify_eq.
  by apply preserves_same_containers.
Qed.

Lemma M_preserves_any_cast Base a : M_preserves (any_cast Base a).
Proof.
  unfold any_cast. case_decide; [apply M_preserves_ret | apply M_preserves_throw].
Qed.

Lemma M_preserves_required Base (m : M shared_ptr) :
  M_preserves m → M_preserves (required Base m).
Proof.
  intros Hm. unfold required. apply M_preserves_bind; [done|].
  intros [l|]; [apply M_preserves_ret | apply M_preserves_throw].
Qed.

Section preservation.
Variable E : classes.
Variable GetService' : cid → type_info → M shared_ptr.
Hypothesis GetService'_preserves : ∀ c T, M_preserves (GetService' c T).

Lemma M_preserves_exec p : M_preserves (exec GetService' p).
Proof.
  induction p as [v|o k IH|c T k IH|c T k IH]; simpl.
  - apply M_preserves_ret.
  - apply M_preserves_bind; [apply M_preserves_alloc | done].
  - apply M_preserves_bind; [apply GetService'_preserves | done].
  - apply M_preserves_bind;
      [apply M_preserves_required, GetService'_preserves | done].
Qed.

Lemma M_preserves_call0 f : M_preserves (call0 GetService' f).
Proof.
  unfold call0. apply M_preserves_bind; [apply M_preserves_log|].
  intros _. apply M_preserves_exec.
Qed.

Lemma M_preserves_call1 f c : M_preserves (call1 GetService' f c).
Proof.
  unfold call1. apply M_preserves_bind; [apply M_preserves_log|].
  intros _. apply M_preserves_exec.
Qed.

Lemma M_preserves_static_instance site T (init : M shared_ptr) :
  M_preserves init → M_preserves (static_instance site T init).
Proof.
  intros Hinit w r w' H. unfold static_instance in H.
  destruct (statics w !! (site, T)) as [[|instance]|].
  - simplify_eq. apply preserves_refl.
  - simplify_eq. apply preserves_refl.
  - destruct (init _) as [[[instance|e|] w1]|] eqn:Hrun; simplify_eq;
      apply Hinit in Hrun;
      (eapply preserves_trans; [by apply preserves_same_containers|]);
      (eapply preserves_trans; [exact Hrun|]);
      by apply preserves_same_containers.
Qed.

Lemma M_preserves_transient_creator Base Derived this :
  M_preserves (transient_creator E GetService' Base Derived this).
Proof.
  unfold transient_creator. apply M_preserves_bind; [apply M_preserves_log|].
  intros _. apply M_preserves_bind; [apply M_preserves_exec|].
  intros p. apply M_preserves_ret.
Qed.

Lemma M_preserves_singleton_at this key : M_preserves (singleton_at this key).
Proof.
  intros w r w' H. unfold singleton_at in H.
  destruct (_singletons (the_container w this) !! key); simplify_eq;
    apply preserves_refl.
Qed.

Lemma transient_creator_inv Base Derived this w a w' :
  transient_creator E GetService' Base Derived this w = Some (Normal a, w') →
  ∃ p, a = make_any Base p.
Proof.
  intros H. unfold transient_creator in H.
  destruct (bind_inv _ _ _ _ _ H) as [(? & ? & _ & H3)|[(? & _ & ?)|[_ ?]]];
    try done.
  destruct (bind_inv _ _ _ _ _ H3) as [(p & ? & _ & H4)|[(? & _ & ?)|[_ ?]]];
    try done.
  unfold ret in H4. simplify_eq. by exists p.
Qed.

Lemma emplace_singleton_inv this key a w r w' :
  emplace_singleton this key a w = Some (r, w') →
  r = Normal tt ∧
  (∀ c, _services (the_container w' c) = _services (the_container w c)) ∧
  ∃ a', _singletons (the_container w' this) !! key = Some a' ∧
        (_singletons (the_container w this) !! key = None → a' = a).
Proof.
  intros H. unfold emplace_singleton in H.
  destruct (_singletons (the_container w this) !! key) as [a0|] eqn:Hcache;
    simplify_eq.
  - split; [done|]. split; [done|]. by exists a0.
  - split; [done|]. split.
    + intros c. destruct (decide (this = c)) as [<-|Hne].
      * by rewrite the_container_set_container_eq.
      * by rewrite the_container_set_container_ne.
    + exists a. rewrite the_container_set_container_eq. simpl.
      by rewrite lookup_insert_eq.
Qed.

(** The three ways the closure of [GetSingletonCreator] ends: on a cached
    handle, on a failure of the producer, or on the handle it caches. *)
Lemma singleton_creator_inv Base Derived this w r w' :
  singleton_creator E GetService' Base Derived this w = Some (r, w') →
  (∃ a, _singletons (the_container w this) !! hash_code Base = Some a ∧
        r = Normal a ∧ w' = w) ∨
  (_singletons (the_container w this) !! hash_code Base = None ∧
   (∃ r0 : outcome any,
      transient_creator E GetService' Base Derived this w = Some (r0, w') ∧
      (∀ a, r0 ≠ Normal a)) ∧
   ∀ a, r ≠ Normal a) ∨
  (_singletons (the_container w this) !! hash_code Base = None ∧
   ∃ p w1 a,
     transient_creator E GetService' Base Derived this w
     = Some (Normal (make_any Base p), w1) ∧
     emplace_singleton this (hash_code Base) (make_any Base p) w1
     = Some (Normal tt, w') ∧
     _singletons (the_container w' this) !! hash_code Base = Some a ∧
     r = Normal a).
Proof.
  intros H. unfold singleton_creator in H.
  destruct (_singletons (the_container w this) !! hash_code Base) as [a0|] eqn:Hcache.
  - left. exists a0. unfold singleton_at in H. rewrite Hcache in H. by simplify_eq.
  - right.
    destruct (bind_inv _ _ _ _ _ H) as [(a & w1 & H1 & H2)|[(e & H1 & ->)|[H1 ->]]].
    + right. split; [done|].
      destruct (transient_creator_inv _ _ _ _ _ _ H1) as [p ->].
      destruct (bind_inv _ _ _ _ _ H2) as [([] & w2 & H3 & H4)|[(e & H3 & _)|[H3 _]]].
      * destruct (emplace_singleton_inv _ _ _ _ _ _ H3) as (_ & _ & a' & Ha' & _).
        unfold singleton_at in H4. rewrite Ha' in H4. simplify_eq.
        by exists p, w1, a'.
      * by destruct (emplace_singleton_inv _ _ _ _ _ _ H3) as [? _].
      * by destruct (emplace_singleton_inv _ _ _ _ _ _ H3) as [? _].
    + left. split; [done|]. split; [|done]. by exists (Throw e).
    + left. split; [done|]. split; [|done]. by exists Undefined.
Qed.

Lemma singleton_creator_keeps_services Base Derived this w r w' :
  singleton_creator E GetService' Base Derived this w = Some (r, w') →
  ∀ c, _services (the_container w' c) = _services (the_container w c).
Proof.
  intros H.
  destruct (singleton_creator_inv _ _ _ _ _ _ H)
    as [(a & _ & _ & ->)|[(_ & (r0 & H1 & _) & _)|(_ & p & w1 & a & H1 & H2 & _)]].
  - done.
  - by apply (M_preserves_transient_creator _ _ _ _ _ _ H1).
  - intros c.
    destruct (emplace_singleton_inv _ _ _ _ _ _ H2) as (_ & -> & _).
    by apply (M_preserves_transient_creator _ _ _ _ _ _ H1).
Qed.

(** The cache entry written by the closure stored under its own key. *)
Lemma emplace_singleton_consistent Base Derived this p w r w' :
  _services (the_container w this) !! hash_code Base
  = Some (SingletonCreator Base Derived this) →
  emplace_singleton this (hash_code Base) (make_any Base p) w = Some (r, w') →
  cache_consistent w → cache_consistent w'.
Proof.
  intros Hentry H [H1 H2]. unfold emplace_singleton in H.
  destruct (_singletons (the_container w this) !! hash_code Base) eqn:Hcache;
    simplify_eq; [by split|].
  split.
  - intros c key B D this'. destruct (decide (this = c)) as [<-|Hne].
    + rewrite the_container_set_container_eq. simpl. apply H1.
    + rewrite the_container_set_container_ne by done. apply H1.
  - intros c key a. destruct (decide (this = c)) as [<-|Hne].
    + rewrite the_container_set_container_eq. simpl.
      destruct (decide (hash_code Base = key)) as [<-|Hkey].
      * rewrite lookup_insert_eq. intros [= <-]. by exists Base, Derived.
      * rewrite lookup_insert_ne by done. apply H2.
    + rewrite the_container_set_container_ne by done. apply H2.
Qed.

(** Calling the creator stored for a key of [c]. *)
Lemma invoke_preserves c key cr w r w' :
  _services (the_container w c) !! key = Some cr →
  invoke E GetService' cr w = Some (r, w') →
  preserves w w'.
Proof.
  intros Hentry H. destruct cr as [B D this|B D this|T i|T i|T f|T f|T f this|T f this];
    simpl in H.
  - by eapply M_preserves_transient_creator.
  - split; [by eapply singleton_creator_keeps_services|].
    intros Hcons.
    destruct (proj1 Hcons _ _ _ _ _ Hentry) as [-> ->].
    destruct (singleton_creator_inv _ _ _ _ _ _ H)
      as [(a & _ & _ & ->)|[(_ & (r0 & H1 & _) & _)|(_ & p & w1 & a & H1 & H2 & _)]].
    + done.
    + by apply (M_preserves_transient_creator _ _ _ _ _ _ H1).
    + pose proof (M_preserves_transient_creator _ _ _ _ _ _ H1) as [Hs Hc].
      eapply emplace_singleton_consistent; [|exact H2|by apply Hc].
      by rewrite Hs.
  - revert H. apply M_preserves_bind; [|intros; apply M_preserves_ret].
    intros w0 r0 w0' H0. unfold alloc in H0. simplify_eq.
    by apply preserves_same_containers.
  - revert H. apply M_preserves_ret.
  - revert H. apply M_preserves_bind; [apply M_preserves_call0|].
    intros; apply M_preserves_ret.
  - revert H. apply M_preserves_bind;
      [apply M_preserves_static_instance, M_preserves_call0|].
    intros; apply M_preserves_ret.
  - revert H. apply M_preserves_bind; [apply M_preserves_call1|].
    intros; apply M_preserves_ret.
  - revert H. apply M_preserves_bind;
      [apply M_preserves_static_instance, M_preserves_call1|].
    intros; apply M_preserves_ret.
Qed.

Lemma GetService_body_preserves c Base :
  M_preserves (GetService_body E GetService' c Base).
Proof.
  intros w r w' H. unfold GetService_body in H.
  destruct (_services (the_container w c) !! hash_code Base) as [cr|] eqn:Hentry.
  - destruct (bind_inv _ _ _ _ _ H) as [(a & w1 & H1 & H2)|[(e & H1 & _)|[H1 _]]].
    + eapply preserves_trans; [by eapply invoke_preserves|].
      by eapply M_preserves_any_cast.
    + by eapply invoke_preserves.
    + by eapply invoke_preserves.
  - simplify_eq. apply preserves_refl.
Qed.
End preservation.

(** Resolution keeps the registrations and the consistency of the caches. *)
Lemma GetService_preserves E fuel c Base : M_preserves (GetService E fuel c Base).
Proof.
  revert c Base. induction fuel as [|fuel IH]; intros c Base.
  - intros w r w' H. done.
  - intros w r w' H. rewrite GetService_unfold in H.
    by eapply GetService_body_preserves.
Qed.

Lemma cache_consistent_empty : cache_consistent empty_world.
Proof.
  split.
  - intros c key B D this H. unfold the_container, empty_world in H.
    simpl in H. by rewrite lookup_empty in H.
  - intros c key a H. unfold the_container, empty_world in H.
    simpl in H. by rewrite lookup_empty in H.
Qed.

Lemma cache_consistent_register r c w :
  cache_consistent w → cache_consistent (register r c w).
Proof.
  intros [H1 H2]. rewrite register_emplace. unfold emplace_service.
  destruct (_services (the_container w c) !! hash_code (service_type r)) eqn:Hkey;
    [by split|].
  split.
  - intros c' key B D this. destruct (decide (c = c')) as [<-|Hne].
    + rewrite the_container_set_container_eq. simpl.
      destruct (decide (hash_code (service_type r) = key)) as [<-|Hk].
      * rewrite lookup_insert_eq. intros [= Hcr].
        destruct r; simpl in *;
          unfold GetSingletonCreator, GetTransientCreator in *; by simplify_eq.
      * rewrite lookup_insert_ne by done. apply H1.
    + rewrite the_container_set_container_ne by done. apply H1.
  - intros c' key a. destruct (decide (c = c')) as [<-|Hne].
    + rewrite the_container_set_container_eq. simpl. intros Ha.
      destruct (H2 _ _ _ Ha) as (B & D & Hs & Ht).
      exists B, D. split; [|done].
      rewrite lookup_insert_ne; [done|]. intros <-. congruence.
    + rewrite the_container_set_container_ne by done. apply H2.
Qed.

Lemma bind_ret_inv {A B} (m : M A) (f : A → B) w b w' :
  bind m (λ a, ret (f a)) w = Some (Normal b, w') →
  ∃ a, b = f a ∧ m w = Some (Normal a, w').
Proof.
  intros H.
  destruct (bind_inv _ _ _ _ _ H) as [(a & w1 & H1 & H2)|[(? & _ & ?)|[_ ?]]];
    try done.
  unfold ret in H2. simplify_eq. by exists a.
Qed.

(** The creator of a registration for [Base], called from the entry of
    [Base], returns a handle of [Base]. *)
Lemma invoke_registered_type E fuel r c w a w' :
  cache_consistent w →
  _services (the_container w c) !! hash_code (service_type r) = Some (creator_of r c) →
  invoke E (GetService E fuel) (creator_of r c) w = Some (Normal a, w') →
  any_type a = service_type r.
Proof.
  intros Hcons Hentry H.
  pose proof (invoke_preserves E _ (GetService_preserves E fuel) _ _ _ _ _ _ Hentry H)
    as [Hkept Hcons'].
  destruct r as [B D|B D|T i|T i|T f|T f|T f|T f]; simpl in *.
  - by destruct (transient_creator_inv _ _ _ _ _ _ _ _ H) as [p ->].
  - assert (∃ a0, _singletons (the_container w' c) !! hash_code B = Some a0 ∧ a = a0)
      as (a0 & Ha0 & ->).
    { destruct (singleton_creator_inv _ _ _ _ _ _ _ _ H)
        as [(a0 & Ha0 & ? & ->)|[(_ & _ & Hno)|(_ & p & w1 & a0 & _ & _ & Ha0 & ?)]];
        simplify_eq; eauto. by specialize (Hno a). }
    destruct (proj2 (Hcons' Hcons) _ _ _ Ha0) as (B' & D' & Hs & Ht).
    rewrite Hkept in Hs. unfold GetSingletonCreator in Hentry. by simplify_eq.
  - by destruct (bind_ret_inv _ _ _ _ _ H) as (? & -> & _).
  - unfold ret in H. by simplify_eq.
  - by destruct (bind_ret_inv _ _ _ _ _ H) as (? & -> & _).
  - by destruct (bind_ret_inv _ _ _ _ _ H) as (? & -> & _).
  - by destruct (bind_ret_inv _ _ _ _ _ H) as (? & -> & _).
  - by destruct (bind_ret_inv _ _ _ _ _ H) as (? & -> & _).
Qed.

(** The caches are consistent in every state of a process. *)
Lemma reachable_cache_consistent w : reachable w → cache_consistent w.
Proof.
  induction 1 as [|o w _ IH|r c w _ IH|E fuel c Base w r w' _ IH Hget].
  - apply cache_consistent_empty.
  - exact IH.
  - by apply cache_consistent_register.
  - by apply (GetService_preserves _ _ _ _ _ _ _ Hget).
Qed.

(** ** More fuel gives the same result *)

Lemma M_le_refl {A} (m : M A) : M_le m m.
Proof. by intros w r. Qed.

Lemma M_le_bind {A B} (m m' : M A) (f f' : A → M B) :
  M_le m m' → (∀ a, M_le (f a) (f' a)) → M_le (bind m f) (bind m' f').
Proof.
  intros Hm Hf w r H. unfold bind in *.
  destruct (m w) as [[o w1]|] eqn:Hmw; [|done].
  rewrite (Hm _ _ Hmw). destruct o; [by apply Hf|done|done].
Qed.

Section fuel.
Variable E : classes.
Variables GetService1 GetService2 : cid → type_info → M shared_ptr.
Hypothesis GetService_le : ∀ c T, M_le (GetService1 c T) (GetService2 c T).

Lemma M_le_exec p : M_le (exec GetService1 p) (exec GetService2 p).
Proof.
  induction p as [v|o k IH|c T k IH|c T k IH]; simpl.
  - apply M_le_refl.
  - apply M_le_bind; [apply M_le_refl | done].
  - apply M_le_bind; [apply GetService_le | done].
  - apply M_le_bind; [|done].
    unfold required. apply M_le_bind; [apply GetService_le|].
    intros a. apply M_le_refl.
Qed.

Lemma M_le_call0 f : M_le (call0 GetService1 f) (call0 GetService2 f).
Proof.
  unfold call0. apply M_le_bind; [apply M_le_refl|].
  intros _. apply M_le_exec.
Qed.

Lemma M_le_call1 f c : M_le (call1 GetService1 f c) (call1 GetService2 f c).
Proof.
  unfold call1. apply M_le_bind; [apply M_le_refl|].
  intros _. apply M_le_exec.
Qed.

Lemma M_le_static_instance site T (init init' : M shared_ptr) :
  M_le init init' →
  M_le (static_instance site T init) (static_instance site T init').
Proof.
  intros Hinit w r H. unfold static_instance in *.
  destruct (statics w !! (site, T)) as [[|instance]|]; [done|done|].
  destruct (init _) as [[o w1]|] eqn:Hrun; [|done].
  by rewrite (Hinit _ _ Hrun).
Qed.

Lemma M_le_transient_creator Base Derived this :
  M_le (transient_creator E GetService1 Base Derived this)
       (transient_creator E GetService2 Base Derived this).
Proof.
  unfold transient_creator. apply M_le_bind; [apply M_le_refl|].
  intros _. apply M_le_bind; [apply M_le_exec|].
  intros p. apply M_le_refl.
Qed.

Lemma M_le_invoke cr : M_le (invoke E GetService1 cr) (invoke E GetService2 cr).
Proof.
  destruct cr as [B D this|B D this|T i|T i|T f|T f|T f this|T f this]; simpl;
    try apply M_le_refl.
  - apply M_le_transient_creator.
  - intros w r H. unfold singleton_creator in *.
    destruct (_singletons (the_container w this) !! hash_code B); [done|].
    revert H. apply M_le_bind; [apply M_le_transient_creator|].
    intros a. apply M_le_refl.
  - apply M_le_bind; [apply M_le_call0 | intros; apply M_le_refl].
  - apply M_le_bind;
      [apply M_le_static_instance, M_le_call0 | intros; apply M_le_refl].
  - apply M_le_bind; [apply M_le_call1 | intros; apply M_le_refl].
  - apply M_le_bind;
      [apply M_le_static_instance, M_le_call1 | intros; apply M_le_refl].
Qed.

Lemma M_le_GetService_body c Base :
  M_le (GetService_body E GetService1 c Base)
       (GetService_body E GetService2 c Base).
Proof.
  intros w r H. unfold GetService_body in *.
  destruct (_services (the_container w c) !! hash_code Base) as [cr|]; [|done].
  revert H. apply M_le_bind; [apply M_le_invoke | intros; apply M_le_refl].
Qed.
End fuel.

(** A resolution that ends with some fuel ends the same way with more. *)
Lemma GetService_fuel_mono E fuel fuel' c Base w r :
  fuel ≤ fuel' →
  GetService E fuel c Base w = Some r →
  GetService E fuel' c Base w = Some r.
Proof.
  intros Hle. revert c Base w r.
  induction Hle as [|fuel' Hle IH]; [done|].
  assert (∀ n c T, M_le (GetService E n c T) (GetService E (S n) c T)) as Hstep.
  { induction n as [|n IHn]; intros c T; [by intros w r|].
    intros w r. rewrite !GetService_unfold.
    by apply M_le_GetService_body. }
  intros c Base w r H. by apply Hstep, IH.
Qed.

(** ** Unregistered services *)

Lemma GetService_no_entry E fuel c T w :
  _services (the_container w c) !! hash_code T = None →
  GetService E (S fuel) c T w = Some (Normal nullptr, w).
Proof.
  intros Hnone. rewrite GetService_unfold. unfold GetService_body.
  by rewrite Hnone.
Qed.

(** [GetRequiredService] tests the handle, not the registration. *)
Lemma GetRequiredService_of_null E fuel c T w w' :
  GetService E fuel c T w = Some (Normal nullptr, w') →
  GetRequiredService E fuel c T w
  = Some (Throw (runtime_error ("No implementation registered for " +:+ name T)), w').
Proof. intros Hget. unfold GetRequiredService, required, bind. by rewrite Hget. Qed.

Lemma GetRequiredService_of_handle E fuel c T w l w' :
  GetService E fuel c T w = Some (Normal (Some l), w') →
  GetRequiredService E fuel c T w = Some (Normal (Some l), w').
Proof. intros Hget. unfold GetRequiredService, required, bind. by rewrite Hget. Qed.

(** C3. On a container with no entry for the type identity of [T],
    [GetService<T>()] returns the null handle without throwing and leaves the
    state as it is, and [GetRequiredService<T>()] throws a [runtime_error]
    whose message ends in the name of [T]. *)
Theorem unregistered_service E fuel c T w :
  _services (the_container w c) !! hash_code T = None →
  GetService E (S fuel) c T w = Some (Normal nullptr, w) ∧
  GetRequiredService E (S fuel) c T w
  = Some (Throw (runtime_error ("No implementation registered for " +:+ name T)), w).
Proof.
  intros Hnone. split.
  - by apply GetService_no_entry.
  - by apply GetRequiredService_of_null, GetService_no_entry.
Qed.

Lemma unregistered_service_witness :
  _services (the_container empty_world 0) !! hash_code IService = None ∧
  GetService app 1 0 IService empty_world = Some (Normal nullptr, empty_world) ∧
  GetRequiredService app 1 0 IService empty_world
  = Some (Throw (runtime_error "No implementation registered for IService"),
          empty_world).
Proof.
  split; [reflexivity|].
  apply (unregistered_service app 0 0 IService empty_world). reflexivity.
Defined.

(** ** A creator that yields a null handle *)

(** C10. When the creator registered for [T] returns a null handle,
    [GetService<T>()] returns the null handle and [GetRequiredService<T>()]
    throws the error naming [T]: the outcomes a container with no entry for
    [T] gives. *)
Theorem null_service_as_unregistered E fuel c T w cr a w' c0 w0 :
  _services (the_container w c) !! hash_code T = Some cr →
  invoke E (GetService E fuel) cr w = Some (Normal a, w') →
  any_type a = T →
  any_value a = nullptr →
  _services (the_container w0 c0) !! hash_code T = None →
  GetService E (S fuel) c T w = Some (Normal nullptr, w') ∧
  GetRequiredService E (S fuel) c T w
  = Some (Throw (runtime_error ("No implementation registered for " +:+ name T)), w') ∧
  fst <$> GetService E (S fuel) c T w = fst <$> GetService E (S fuel) c0 T w0 ∧
  fst <$> GetRequiredService E (S fuel) c T w
  = fst <$> GetRequiredService E (S fuel) c0 T w0.
Proof.
  intros Hentry Hinvoke Htype Hnull Hnone.
  assert (GetService E (S fuel) c T w = Some (Normal nullptr, w')) as Hget.
  { rewrite GetService_unfold. unfold GetService_body. rewrite Hentry.
    unfold bind. rewrite Hinvoke. unfold any_cast.
    rewrite decide_True by done. by rewrite Hnull. }
  pose proof (GetRequiredService_of_null _ _ _ _ _ _ Hget) as Hreq.
  pose proof (GetService_no_entry E fuel c0 T w0 Hnone) as Hget0.
  pose proof (GetRequiredService_of_null _ _ _ _ _ _ Hget0) as Hreq0.
  by rewrite Hget, Hreq, Hget0, Hreq0.
Qed.

Lemma null_service_as_unregistered_witness :
  _services (the_container null_factory 0) !! hash_code IService
  = Some (FunctionCreator IService (return_handle 1 nullptr)) ∧
  invoke app (GetService app 0) (FunctionCreator IService (return_handle 1 nullptr))
    null_factory
  = Some (Normal (make_any IService nullptr),
          set_calls [function_called 1] null_factory) ∧
  _services (the_container empty_world 0) !! hash_code IService = None ∧
  GetService app 1 0 IService null_factory
  = Some (Normal nullptr, set_calls [function_called 1] null_factory) ∧
  GetRequiredService app 1 0 IService null_factory
  = Some (Throw (runtime_error "No implementation registered for IService"),
          set_calls [function_called 1] null_factory) ∧
  fst <$> GetService app 1 0 IService null_factory
  = fst <$> GetService app 1 0 IService empty_world ∧
  fst <$> GetRequiredService app 1 0 IService null_factory
  = fst <$> GetRequiredService app 1 0 IService empty_world.
Proof.
  split; [reflexivity|]. split; [reflexivity|]. split; [reflexivity|].
  apply (null_service_as_unregistered app 0 0 IService null_factory
           (FunctionCreator IService (return_handle 1 nullptr))
           (make_any IService nullptr) (set_calls [function_called 1] null_factory)
           0 empty_world); reflexivity.
Defined.

(** ** Resolution through each kind of entry *)

(** The handle a creator made for [T] passes the cast to [T]. *)
Lemma bind_make_any_cast T (m : M shared_ptr) w :
  bind (bind m (λ p, ret (make_any T p))) (any_cast T) w = m w.
Proof.
  unfold bind, ret, any_cast. destruct (m w) as [[[p|e|] w1]|]; simpl; try done.
  by rewrite decide_True.
Qed.

Lemma GetService_entry E fuel c Base w cr :
  _services (the_container w c) !! hash_code Base = Some cr →
  GetService E (S fuel) c Base w
  = bind (invoke E (GetService E fuel) cr) (any_cast Base) w.
Proof.
  intros Hentry. rewrite GetService_unfold. unfold GetService_body.
  by rewrite Hentry.
Qed.

(** By concrete type, transient, through the primary [CreateInstance]. *)
Lemma GetService_transient_type E fuel c Base Derived this w :
  _services (the_container w c) !! hash_code Base
  = Some (TransientCreator Base Derived this) →
  specialization E Base Derived = None →
  GetService E (S fuel) c Base w
  = Some (Normal (Some (length (heap w))),
          set_heap (heap w ++ [default_ctor E Derived])
            (set_calls (calls w ++ [CreateInstance_called Base Derived this]) w)).
Proof.
  intros Hentry Hspec. rewrite (GetService_entry _ _ _ _ _ _ Hentry). simpl.
  unfold transient_creator, CreateInstance. rewrite Hspec. simpl.
  unfold bind, log, alloc, ret, any_cast. simpl. by rewrite decide_True.
Qed.

(** From a pre-built instance, transient: a new object, built by the
    constructor of [T] that takes the handle. *)
Lemma GetService_transient_instance E fuel c T instance w :
  _services (the_container w c) !! hash_code T = Some (InstanceCopier T instance) →
  GetService E (S fuel) c T w
  = Some (Normal (Some (length (heap w))),
          set_heap (heap w ++ [ptr_ctor E T instance (heap w)]) w).
Proof.
  intros Hentry. rewrite (GetService_entry _ _ _ _ _ _ Hentry). simpl.
  unfold bind, alloc, ret, any_cast. simpl. by rewrite decide_True.
Qed.

(** From a pre-built instance, singleton: the instance, in the same state. *)
Lemma GetService_singleton_instance E fuel c T instance w :
  _services (the_container w c) !! hash_code T = Some (InstanceReturner T instance) →
  GetService E (S fuel) c T w = Some (Normal instance, w).
Proof.
  intros Hentry. rewrite (GetService_entry _ _ _ _ _ _ Hentry). simpl.
  unfold bind, ret, any_cast. simpl. by rewrite decide_True.
Qed.

(** From a factory, transient: the call of the factory. *)
Lemma GetService_transient_function E fuel c T f w :
  _services (the_container w c) !! hash_code T = Some (FunctionCreator T f) →
  GetService E (S fuel) c T w = call0 (GetService E fuel) f w.
Proof.
  intros Hentry. rewrite (GetService_entry _ _ _ _ _ _ Hentry). simpl.
  apply bind_make_any_cast.
Qed.

Lemma GetService_transient_container_function E fuel c T f this w :
  _services (the_container w c) !! hash_code T
  = Some (ContainerFunctionCreator T f this) →
  GetService E (S fuel) c T w = call1 (GetService E fuel) f this w.
Proof.
  intros Hentry. rewrite (GetService_entry _ _ _ _ _ _ Hentry). simpl.
  apply bind_make_any_cast.
Qed.

(** By concrete type, singleton, before the first realization: the primary
    [CreateInstance] runs once and its result is cached in the container the
    closure captured. *)
Lemma GetService_singleton_type_first E fuel c Base Derived this w :
  _services (the_container w c) !! hash_code Base
  = Some (SingletonCreator Base Derived this) →
  _singletons (the_container w this) !! hash_code Base = None →
  specialization E Base Derived = None →
  GetService E (S fuel) c Base w
  = Some (Normal (Some (length (heap w))),
          set_container this
            (MkContainer (_services (the_container w this))
               (<[hash_code Base := make_any Base (Some (length (heap w)))]>
                  (_singletons (the_container w this))))
            (set_heap (heap w ++ [default_ctor E Derived])
               (set_calls (calls w ++ [CreateInstance_called Base Derived this]) w))).
Proof.
  intros Hentry Hcache Hspec. rewrite (GetService_entry _ _ _ _ _ _ Hentry). simpl.
  unfold bind at 1. unfold singleton_creator. cbv beta. rewrite Hcache.
  unfold transient_creator, CreateInstance. rewrite Hspec. simpl.
  unfold bind, log, alloc, ret. simpl.
  unfold emplace_singleton.
  rewrite the_container_set_heap, the_container_set_calls, Hcache.
  unfold singleton_at. rewrite the_container_set_container_eq. simpl.
  rewrite lookup_insert_eq. unfold any_cast. simpl. by rewrite decide_True.
Qed.

(** By concrete type, singleton, once realized: the cached handle, in the
    same state. *)
Lemma GetService_singleton_type_cached E fuel c Base Derived this w p :
  _services (the_container w c) !! hash_code Base
  = Some (SingletonCreator Base Derived this) →
  _singletons (the_container w this) !! hash_code Base = Some (make_any Base p) →
  GetService E (S fuel) c Base w = Some (Normal p, w).
Proof.
  intros Hentry Hcache. rewrite (GetService_entry _ _ _ _ _ _ Hentry). simpl.
  unfold bind, singleton_creator, singleton_at. cbv beta. rewrite Hcache.
  unfold any_cast. simpl. by rewrite decide_True.
Qed.

(** From a factory, singleton, with the [static] variable initialized: its
    value, in the same state, whatever factory the entry holds. *)
Lemma GetService_static_initialized E fuel c T w cr site p :
  _services (the_container w c) !! hash_code T = Some cr →
  (∃ f, cr = StaticFunctionCreator T f ∧ site = in_AddSingleton_function) ∨
  (∃ f this, cr = StaticContainerFunctionCreator T f this ∧
             site = in_AddSingleton_container_function) →
  statics w !! (site, T) = Some (initialized p) →
  GetService E (S fuel) c T w = Some (Normal p, w).
Proof.
  intros Hentry Hcr Hslot. rewrite (GetService_entry _ _ _ _ _ _ Hentry).
  destruct Hcr as [(f & -> & ->)|(f & this & -> & ->)]; simpl;
    unfold bind, static_instance; rewrite Hslot; unfold ret, any_cast; simpl;
    by rewrite decide_True.
Qed.

(** From a factory, singleton, with the [static] variable not yet reached:
    the factory runs and its result initializes the variable. *)
Lemma GetService_static_first E fuel c T w cr site (init : M shared_ptr) p w1 :
  _services (the_container w c) !! hash_code T = Some cr →
  (∃ f, cr = StaticFunctionCreator T f ∧ site = in_AddSingleton_function ∧
        init = call0 (GetService E fuel) f) ∨
  (∃ f this, cr = StaticContainerFunctionCreator T f this ∧
             site = in_AddSingleton_container_function ∧
             init = call1 (GetService E fuel) f this) →
  statics w !! (site, T) = None →
  init (set_statics (<[(site, T) := initializing]> (statics w)) w)
  = Some (Normal p, w1) →
  GetService E (S fuel) c T w
  = Some (Normal p, set_statics (<[(site, T) := initialized p]> (statics w1)) w1).
Proof.
  intros Hentry Hcr Hslot Hinit. rewrite (GetService_entry _ _ _ _ _ _ Hentry).
  destruct Hcr as [(f & -> & -> & ->)|(f & this & -> & -> & ->)]; simpl;
    unfold bind, static_instance; rewrite Hslot, Hinit; unfold ret, any_cast; simpl;
    by rewrite decide_True.
Qed.

(** A resolution that returns [p] and changes nothing does so any number of
    times. *)
Lemma GetService_times_fixed E fuel n c T w p :
  GetService E fuel c T w = Some (Normal p, w) →
  GetService_times E fuel n c T w = Some (Normal (replicate n p), w).
Proof.
  intros Hfix. induction n as [|n IH]; simpl; [done|].
  unfold bind. rewrite Hfix. fold (GetService_times E fuel n c T).
  by rewrite IH.
Qed.

Lemma GetService_times_S E fuel n c T w p w1 :
  GetService E fuel c T w = Some (Normal p, w1) →
  GetService_times E fuel n c T w1 = Some (Normal (replicate n p), w1) →
  GetService_times E fuel (S n) c T w = Some (Normal (replicate (S n) p), w1).
Proof.
  intros Hfirst Hrest. simpl. unfold bind. rewrite Hfirst.
  fold (GetService_times E fuel n c T). by rewrite Hrest.
Qed.

(** ** Singleton lifetime *)

(** By concrete type: from the state in which the type is registered and not
    realized, [n + 1] consecutive resolutions return one and the same new
    object, and the primary [CreateInstance] is called once. *)
Lemma singleton_type_times E fuel n c Base Derived w :
  _services (the_container w c) !! hash_code Base
  = Some (SingletonCreator Base Derived c) →
  _singletons (the_container w c) !! hash_code Base = None →
  specialization E Base Derived = None →
  ∃ w',
    GetService_times E (S fuel) (S n) c Base w
    = Some (Normal (replicate (S n) (Some (length (heap w)))), w') ∧
    calls w' = calls w ++ [CreateInstance_called Base Derived c] ∧
    heap w' = heap w ++ [default_ctor E Derived] ∧
    _singletons (the_container w' c) !! hash_code Base
    = Some (make_any Base (Some (length (heap w)))).
Proof.
  intros Hentry Hcache Hspec. eexists. split.
  - eapply GetService_times_S.
    + by apply GetService_singleton_type_first.
    + apply GetService_times_fixed.
      eapply GetService_singleton_type_cached.
      * rewrite the_container_set_container_eq. simpl. exact Hentry.
      * rewrite the_container_set_container_eq. simpl. apply lookup_insert_eq.
  - simpl. split; [done|]. split; [done|].
    rewrite the_container_set_container_eq. simpl. apply lookup_insert_eq.
Qed.

(** X4. The same, from the registration on: in any state of a process in which
    the container has no entry for the type identity, [AddSingleton<Base,
    Derived>()] followed by [n + 1] resolutions calls [CreateInstance] once
    and returns one object. *)
Lemma singleton_type_after_registration E fuel n c Base Derived w :
  reachable w →
  _services (the_container w c) !! hash_code Base = None →
  specialization E Base Derived = None →
  ∃ w',
    GetService_times E (S fuel) (S n) c Base (AddSingleton Base Derived c w)
    = Some (Normal (replicate (S n) (Some (length (heap w)))), w') ∧
    calls w' = calls w ++ [CreateInstance_called Base Derived c].
Proof.
  intros Hreach Hnone Hspec.
  assert (_singletons (the_container w c) !! hash_code Base = None) as Hcache.
  { destruct (_singletons (the_container w c) !! hash_code Base) as [a|] eqn:Ha;
      [|done].
    destruct (proj2 (reachable_cache_consistent w Hreach) _ _ _ Ha)
      as (B & D & Hs & _). congruence. }
  pose proof (emplace_service_frame c (hash_code Base)
                (SingletonCreator Base Derived c) w) as (Hh & Hc & _ & Hm).
  destruct (singleton_type_times E fuel n c Base Derived
              (AddSingleton Base Derived c w)) as (w' & Hrun & Hcalls & _).
  - by apply emplace_service_absent.
  - unfold AddSingleton, AddService_Base_Derived, GetSingletonCreator.
    by rewrite Hm.
  - done.
  - exists w'. unfold AddSingleton, AddService_Base_Derived, GetSingletonCreator in *.
    by rewrite Hh, Hc in *.
Qed.

(** X5. By concrete type, the cache belongs to the container: two containers
    that register the same type realize one instance each, each through its
    own call of [CreateInstance]. *)
Lemma singleton_type_is_per_container E fuel c1 c2 Base D1 D2 w :
  c1 ≠ c2 →
  _services (the_container w c1) !! hash_code Base
  = Some (SingletonCreator Base D1 c1) →
  _services (the_container w c2) !! hash_code Base
  = Some (SingletonCreator Base D2 c2) →
  _singletons (the_container w c1) !! hash_code Base = None →
  _singletons (the_container w c2) !! hash_code Base = None →
  specialization E Base D1 = None →
  specialization E Base D2 = None →
  ∃ w1 w2,
    GetService E (S fuel) c1 Base w = Some (Normal (Some (length (heap w))), w1) ∧
    GetService E (S fuel) c2 Base w1
    = Some (Normal (Some (S (length (heap w)))), w2) ∧
    calls w2 = calls w ++ [CreateInstance_called Base D1 c1;
                           CreateInstance_called Base D2 c2].
Proof.
  intros Hne H1 H2 Hc1 Hc2 Hs1 Hs2. eexists _, _.
  split; [by apply GetService_singleton_type_first|].
  rewrite (GetService_singleton_type_first E fuel c2 Base D2 c2).
  - simpl. rewrite length_app, Nat.add_1_r. split; [reflexivity|].
    simpl. by rewrite <- app_assoc.
  - by rewrite the_container_set_container_ne.
  - by rewrite the_container_set_container_ne.
  - done.
Qed.

(** From a pre-built instance: every resolution returns the instance, and
    nothing is created. *)
Lemma singleton_instance_times E fuel n c T instance w :
  _services (the_container w c) !! hash_code T = Some (InstanceReturner T instance) →
  GetService_times E (S fuel) n c T w = Some (Normal (replicate n instance), w).
Proof.
  intros Hentry. apply GetService_times_fixed.
  by apply GetService_singleton_instance.
Qed.

(** From a factory, when the [static] variable of the type has not been
    reached: the first of [n + 1] consecutive resolutions calls the factory,
    and all return its result. *)
Lemma singleton_function_times E fuel n c T f w p w1 :
  _services (the_container w c) !! hash_code T = Some (StaticFunctionCreator T f) →
  statics w !! (in_AddSingleton_function, T) = None →
  call0 (GetService E fuel) f
    (set_statics (<[(in_AddSingleton_function, T) := initializing]> (statics w)) w)
  = Some (Normal p, w1) →
  GetService_times E (S fuel) (S n) c T w
  = Some (Normal (replicate (S n) p),
          set_statics (<[(in_AddSingleton_function, T) := initialized p]> (statics w1)) w1).
Proof.
  intros Hentry Hslot Hcall.
  eapply GetService_times_S.
  - eapply GetService_static_first; eauto.
  - apply GetService_times_fixed.
    eapply GetService_static_initialized.
    + rewrite the_container_set_statics.
      destruct (M_preserves_call0 _ (GetService_preserves E fuel) _ _ _ _ Hcall)
        as [-> _].
      rewrite the_container_set_statics. exact Hentry.
    + left. eauto.
    + simpl. apply lookup_insert_eq.
Qed.

(** From a factory, when the [static] variable of the type is initialized:
    no resolution calls the factory of the entry, and all return the value of
    the variable. *)
Lemma singleton_function_times_initialized E fuel n c T f w p :
  _services (the_container w c) !! hash_code T = Some (StaticFunctionCreator T f) →
  statics w !! (in_AddSingleton_function, T) = Some (initialized p) →
  GetService_times E (S fuel) n c T w = Some (Normal (replicate n p), w).
Proof.
  intros Hentry Hslot. apply GetService_times_fixed.
  eapply GetService_static_initialized; eauto.
Qed.

(** C1.  The claim fails for the factory shape.  Containers 0 and 1 each
    register their own factory for [IService] as a singleton; container 0
    resolves it once.  Then container 1, for every [n], answers [n]
    consecutive resolutions with the instance of container 0 and in an
    unchanged state: its own factory (label 2) is called zero times, where
    the claim says once. *)
Theorem singleton_function_of_second_container_never_called n :
  ∃ w1,
    GetService app 1 0 IService two_containers_function = Some (Normal (Some 0), w1) ∧
    GetService_times app 1 n 1 IService w1 = Some (Normal (replicate n (Some 0)), w1) ∧
    calls w1 = [function_called 1] ∧
    heap w1 = [Object Service 100 []].
Proof.
  eexists. split; [reflexivity|]. split; [|done].
  apply singleton_function_times_initialized with (f := make_service 2 200);
    reflexivity.
Qed.

(** C4.  The [static] variable of a singleton factory belongs to the type,
    not to a container.  Containers 0 and 1 each register their own factory
    for [IService]; after container 0 has resolved it, container 1 returns
    the instance made by the factory of container 0, and the factory of
    container 1 is not called.  So for both factory overloads. *)
Theorem singleton_function_state_is_shared :
  (∃ w1 w2,
     GetService app 1 0 IService two_containers_function = Some (Normal (Some 0), w1) ∧
     GetService app 1 1 IService w1 = Some (Normal (Some 0), w2) ∧
     calls w2 = [function_called 1] ∧
     heap w2 = [Object Service 100 []]) ∧
  (∃ w1 w2,
     GetService app 1 0 IService two_containers_container_function
     = Some (Normal (Some 0), w1) ∧
     GetService app 1 1 IService w1 = Some (Normal (Some 0), w2) ∧
     calls w2 = [function_called 1] ∧
     heap w2 = [Object Service 100 []]).
Proof. split; eexists _, _; repeat split; reflexivity. Qed.

(** ** Pre-built instances *)

(** C5.  The transient half of the claim fails.  [Node] has the constructor
    [Node(std::shared_ptr<Node>)], which links the new node to its argument
    and leaves the payload 0.  With the node of payload 7 at address 0
    registered as a transient instance, a resolution returns a new object, at
    address 1, whose value is not the value of the instance: the creator
    passes the handle to the constructor, it does not copy the object. *)
Theorem transient_instance_is_not_a_copy :
  ∃ w1,
    GetService app 1 0 Node node_instance_transient = Some (Normal (Some 1), w1) ∧
    heap w1 !! 0 = Some (Object Node 7 []) ∧
    heap w1 !! 1 = Some (Object Node 0 [Some 0]).
Proof. eexists. repeat split; reflexivity. Qed.

(** ** Transient lifetime *)

(** C2, as stated, fails: a transient factory that returns a handle it holds
    gives the same instance on two consecutive resolutions. *)
Lemma transient_distinct_counterexample :
  ¬ (∀ E fuel r c w p1 w1 p2 w2,
       is_singleton r = false →
       _services (the_container w c) !! hash_code (service_type r) = None →
       GetService E fuel c (service_type r) (register r c w) = Some (Normal p1, w1) →
       GetService E fuel c (service_type r) w1 = Some (Normal p2, w2) →
       p1 ≠ p2).
Proof.
  intros H.
  eapply (H app 1 (transient_function IService (return_handle 1 (Some 0))) 0
            (set_heap [Object Service 7 []] empty_world) (Some 0) _ (Some 0) _);
    reflexivity.
Qed.

(** C2, amended.  For a type registered transient by concrete type, through
    the primary [CreateInstance], or from a pre-built instance, two
    consecutive resolutions return two distinct new objects.  For a type
    registered transient with a factory, a resolution is a call of the
    factory, the first time and again the second time, and returns what the
    factory returns. *)
Theorem transient_resolutions E fuel c r w :
  is_singleton r = false →
  _services (the_container w c) !! hash_code (service_type r) = Some (creator_of r c) →
  match r with
  | transient_type Base Derived =>
      specialization E Base Derived = None →
      ∃ p1 w1 p2 w2,
        GetService E (S fuel) c Base w = Some (Normal p1, w1) ∧
        GetService E (S fuel) c Base w1 = Some (Normal p2, w2) ∧
        p1 = Some (length (heap w)) ∧ p2 = Some (S (length (heap w))) ∧
        p1 ≠ p2 ∧
        heap w2 = heap w ++ [default_ctor E Derived; default_ctor E Derived]
  | transient_instance T instance =>
      ∃ p1 w1 p2 w2,
        GetService E (S fuel) c T w = Some (Normal p1, w1) ∧
        GetService E (S fuel) c T w1 = Some (Normal p2, w2) ∧
        p1 = Some (length (heap w)) ∧ p2 = Some (S (length (heap w))) ∧
        p1 ≠ p2
  | transient_function T f =>
      GetService E (S fuel) c T w = call0 (GetService E fuel) f w ∧
      ∀ r1 w1, GetService E (S fuel) c T w = Some (r1, w1) →
               GetService E (S fuel) c T w1 = call0 (GetService E fuel) f w1
  | transient_container_function T f =>
      GetService E (S fuel) c T w = call1 (GetService E fuel) f c w ∧
      ∀ r1 w1, GetService E (S fuel) c T w = Some (r1, w1) →
               GetService E (S fuel) c T w1 = call1 (GetService E fuel) f c w1
  | _ => True
  end.
Proof.
  intros Htransient Hentry.
  destruct r as [B D|B D|T i|T i|T f|T f|T f|T f]; simpl in *; try done.
  - intros Hspec. eexists _, _, _, _.
    split; [by apply GetService_transient_type|].
    split; [by apply GetService_transient_type|].
    simpl. rewrite length_app, Nat.add_1_r, <- app_assoc. simpl.
    repeat split; try done. intros [= Heq]. lia.
  - eexists _, _, _, _.
    split; [by apply GetService_transient_instance|].
    split; [by apply GetService_transient_instance|].
    simpl. rewrite length_app, Nat.add_1_r.
    repeat split; try done. intros [= Heq]. lia.
  - split; [by apply GetService_transient_function|].
    intros r1 w1 H1. apply GetService_transient_function.
    destruct (GetService_preserves E (S fuel) c T w r1 w1 H1) as [-> _].
    exact Hentry.
  - split; [by apply GetService_transient_container_function|].
    intros r1 w1 H1. apply GetService_transient_container_function.
    destruct (GetService_preserves E (S fuel) c T w r1 w1 H1) as [-> _].
    exact Hentry.
Qed.

Lemma transient_resolutions_witness :
  _services (the_container transient_service 0) !! hash_code IService
  = Some (TransientCreator IService Service 0) ∧
  ∃ p1 w1 p2 w2,
    GetService app 1 0 IService transient_service = Some (Normal p1, w1) ∧
    GetService app 1 0 IService w1 = Some (Normal p2, w2) ∧
    p1 = Some 0 ∧ p2 = Some 1 ∧ p1 ≠ p2 ∧
    heap w2 = [Object Service 0 []; Object Service 0 []].
Proof.
  split; [reflexivity|].
  apply (transient_resolutions app 0 0 (transient_type IService Service)
           transient_service); reflexivity.
Defined.

(** ** Narrowing of the type-erased handle *)

(** C9. [GetService<Base>()] narrows what the creator returned with a checked
    cast: it returns the handle when the [std::any] holds a handle of [Base],
    and throws [bad_any_cast] otherwise; it never returns a handle of another
    type and the cast is never undefined.  When the entry was made by a
    registration for [Base], in a state whose caches are consistent, the
    [std::any] holds a handle of [Base] and the cast succeeds. *)
Theorem narrowing_is_checked E fuel c Base w cr a w' :
  _services (the_container w c) !! hash_code Base = Some cr →
  invoke E (GetService E fuel) cr w = Some (Normal a, w') →
  GetService E (S fuel) c Base w
  = Some (if decide (any_type a = Base) then Normal (any_value a)
          else Throw bad_any_cast, w') ∧
  (cache_consistent w →
   ∀ r, service_type r = Base → cr = creator_of r c →
        any_type a = Base ∧
        GetService E (S fuel) c Base w = Some (Normal (any_value a), w')).
Proof.
  intros Hentry Hinvoke.
  assert (GetService E (S fuel) c Base w
          = Some (if decide (any_type a = Base) then Normal (any_value a)
                  else Throw bad_any_cast, w')) as Hget.
  { rewrite GetService_unfold. unfold GetService_body. rewrite Hentry.
    unfold bind. rewrite Hinvoke. unfold any_cast. by case_decide. }
  split; [exact Hget|].
  intros Hcons r <- ->.
  assert (any_type a = service_type r) as Htype
    by by eapply invoke_registered_type.
  split; [exact Htype|]. by rewrite Hget, decide_True.
Qed.

Lemma narrowing_is_checked_witness :
  (_services (the_container alpha_registered 0) !! hash_code IBeta
   = Some (TransientCreator IAlpha Alpha 0) ∧
   GetService app 1 0 IBeta alpha_registered
   = Some (Throw bad_any_cast, alpha_resolved)) ∧
  (_services (the_container alpha_registered 0) !! hash_code IAlpha
   = Some (TransientCreator IAlpha Alpha 0) ∧
   GetService app 1 0 IAlpha alpha_registered
   = Some (Normal (Some 0), alpha_resolved)).
Proof.
  split.
  - split; [reflexivity|].
    apply (narrowing_is_checked app 0 0 IBeta alpha_registered
             (TransientCreator IAlpha Alpha 0) (make_any IAlpha (Some 0))
             alpha_resolved); reflexivity.
  - split; [reflexivity|].
    apply (narrowing_is_checked app 0 0 IAlpha alpha_registered
             (TransientCreator IAlpha Alpha 0) (make_any IAlpha (Some 0))
             alpha_resolved) with (r := transient_type IAlpha Alpha);
      [reflexivity|reflexivity| |reflexivity|reflexivity].
    apply (cache_consistent_register (transient_type IAlpha Alpha) 0 empty_world),
      cache_consistent_empty.
Defined.

(** ** Duplicate registrations *)

(** C6. [_services] maps a type identity to one creator.  A registration for
    a type identity that has no entry stores its creator; a second
    registration for that type identity changes nothing: the container has
    one entry more than before the first registration, and under the type
    identity of the second registration it holds the creator registered
    first.  Every later resolution of a type with that identity calls the
    creator registered first, and runs in the same state as without the
    second registration. *)
Theorem first_registration_wins r1 r2 c w :
  hash_code (service_type r2) = hash_code (service_type r1) →
  _services (the_container w c) !! hash_code (service_type r1) = None →
  _services (the_container (register r1 c w) c) !! hash_code (service_type r1)
  = Some (creator_of r1 c) ∧
  register r2 c (register r1 c w) = register r1 c w ∧
  size (_services (the_container (register r2 c (register r1 c w)) c))
  = S (size (_services (the_container w c))) ∧
  (∀ E fuel c' T,
     GetService E fuel c' T (register r2 c (register r1 c w))
     = GetService E fuel c' T (register r1 c w)) ∧
  _services (the_container (register r2 c (register r1 c w)) c)
    !! hash_code (service_type r2)
  = Some (creator_of r1 c) ∧
  ∀ E fuel T,
    hash_code T = hash_code (service_type r1) →
    GetService E (S fuel) c T (register r2 c (register r1 c w))
    = bind (invoke E (GetService E fuel) (creator_of r1 c)) (any_cast T)
        (register r2 c (register r1 c w)).
Proof.
  intros Hkey Hnone.
  assert (_services (the_container (register r1 c w) c) !! hash_code (service_type r1)
          = Some (creator_of r1 c)) as Hfirst.
  { rewrite register_emplace. by apply emplace_service_absent. }
  assert (register r2 c (register r1 c w) = register r1 c w) as Hsame.
  { rewrite (register_emplace r2), Hkey.
    by apply emplace_service_present with (cr0 := creator_of r1 c). }
  split; [exact Hfirst|]. split; [exact Hsame|]. split; [|split; [|split]].
  - rewrite Hsame, register_emplace. unfold emplace_service. rewrite Hnone.
    rewrite the_container_set_container_eq. simpl.
    by apply map_size_insert_None.
  - intros E fuel c' T. by rewrite Hsame.
  - by rewrite Hsame, Hkey.
  - intros E fuel T HT. rewrite Hsame. apply GetService_entry.
    by rewrite HT.
Qed.

Lemma first_registration_wins_witness :
  (_services (the_container empty_world 0) !! hash_code IService = None ∧
   _services (the_container transient_service 0) !! hash_code IService
   = Some (TransientCreator IService Service 0) ∧
   AddSingleton_function IService (make_service 1 100) 0 transient_service
   = transient_service ∧
   GetService app 1 0 IService
     (AddSingleton_function IService (make_service 1 100) 0 transient_service)
   = Some (Normal (Some 0),
           set_heap [Object Service 0 []]
             (set_calls [CreateInstance_called IService Service 0]
                transient_service))) ∧
  (∃ w',
     GetService app 1 0 IService
       (AddTransient IService Service 0
          (AddSingleton_function IService (make_service 1 100) 0 empty_world))
     = Some (Normal (Some 0), w') ∧
     calls w' = [function_called 1] ∧
     heap w' = [Object Service 100 []]).
Proof.
  split.
  - split; [reflexivity|].
    destruct (first_registration_wins (transient_type IService Service)
                (singleton_function IService (make_service 1 100)) 0 empty_world)
      as (Hfirst & Hsame & _ & _ & _ & Hcall); [reflexivity..|].
    split; [exact Hfirst|]. split; [exact Hsame|].
    exact (eq_trans (Hcall app 0 IService eq_refl) eq_refl).
  - destruct (first_registration_wins
                (singleton_function IService (make_service 1 100))
                (transient_type IService Service) 0 empty_world)
      as (_ & _ & _ & _ & _ & Hcall); [reflexivity..|].
    eexists. split; [exact (eq_trans (Hcall app 0 IService eq_refl) eq_refl)|].
    split; reflexivity.
Defined.

(** ** Laziness of registration *)

(** C8. No registration, of any shape, calls a producer: a sequence of
    registrations on any containers leaves the call log, the heap, the
    [static] variables and every singleton cache as they were.  Producers are
    called by resolutions only. *)
Theorem registration_calls_no_producer (rs : list (registration * cid)) w :
  let w' := foldl (λ w rc, register rc.1 rc.2 w) w rs in
  calls w' = calls w ∧ heap w' = heap w ∧ statics w' = statics w ∧
  ∀ c, _singletons (the_container w' c) = _singletons (the_container w c).
Proof.
  revert w. induction rs as [|[r c] rs IH]; intros w; simpl.
  - done.
  - specialize (IH (register r c w)). simpl in IH.
    destruct IH as (Hc & Hh & Hs & Hm).
    rewrite register_emplace in Hc, Hh, Hs, Hm.
    destruct (emplace_service_frame c (hash_code (service_type r)) (creator_of r c) w)
      as (Hh0 & Hc0 & Hs0 & Hm0).
    rewrite register_emplace.
    split; [congruence|]. split; [congruence|]. split; [congruence|].
    intros c'. by rewrite Hm, Hm0.
Qed.

(** * Further properties *)

(** ** What any evolution of the state keeps *)

Lemma extends_refl w : extends w w.
Proof. by split; [|split]. Qed.

Lemma extends_trans w1 w2 w3 : extends w1 w2 → extends w2 w3 → extends w1 w3.
Proof.
  intros (Hs1 & Hc1 & Hi1) (Hs2 & Hc2 & Hi2). split; [|split].
  - intros c. etrans; [apply Hs1 | apply Hs2].
  - intros c. etrans; [apply Hc1 | apply Hc2].
  - auto.
Qed.

(** A write to the heap or to the call log. *)
Lemma extends_same w w' :
  (∀ c, the_container w' c = the_container w c) → statics w' = statics w →
  extends w w'.
Proof.
  intros Hsame Hstat. split; [|split].
  - intros c. by rewrite Hsame.
  - intros c. by rewrite Hsame.
  - intros k p. by rewrite Hstat.
Qed.

Lemma M_extends_ret {A} (a : A) : M_extends (ret a).
Proof. intros w r w' H. unfold ret in H. simplify_eq. apply extends_refl. Qed.

Lemma M_extends_throw {A} e : M_extends (@throw A e).
Proof. intros w r w' H. unfold throw in H. simplify_eq. apply extends_refl. Qed.

Lemma M_extends_bind {A B} (m : M A) (f : A → M B) :
  M_extends m → (∀ a, M_extends (f a)) → M_extends (bind m f).
Proof.
  intros Hm Hf w r w' H.
  destruct (bind_inv _ _ _ _ _ H) as [(a & w1 & H1 & H2)|[(e & H1 & _)|[H1 _]]].
  - eapply extends_trans; [by eapply Hm | by eapply Hf].
  - by eapply Hm.
  - by eapply Hm.
Qed.

Lemma M_extends_alloc o : M_extends (alloc o).
Proof. intros w r w' H. unfold alloc in H. simplify_eq. by apply extends_same. Qed.

Lemma M_extends_log e : M_extends (log e).
Proof. intros w r w' H. unfold log in H. simplify_eq. by apply extends_same. Qed.

Lemma M_extends_any_cast Base a : M_extends (any_cast Base a).
Proof.
  unfold any_cast. case_decide; [apply M_extends_ret | apply M_extends_throw].
Qed.

Lemma M_extends_required Base (m : M shared_ptr) :
  M_extends m → M_extends (required Base m).
Proof.
  intros Hm. unfold required. apply M_extends_bind; [done|].
  intros [l|]; [apply M_extends_ret | apply M_extends_throw].
Qed.

(** A [static] variable that control has not reached is not among the
    initialized ones, so writing it keeps those. *)
Lemma extends_set_static k slot w :
  statics w !! k = None →
  extends w (set_statics (<[k := slot]> (statics w)) w).
Proof.
  intros Hnone. split; [done|]. split; [done|].
  intros k' p Hk'. simpl. rewrite lookup_insert_ne; [done|]. congruence.
Qed.

Lemma M_extends_emplace_singleton this key a :
  M_extends (emplace_singleton this key a).
Proof.
  intros w r w' H. unfold emplace_singleton in H.
  destruct (_singletons (the_container w this) !! key) eqn:Hcache; simplify_eq;
    [apply extends_refl|].
  split; [|split]; [| |done].
  - intros c. destruct (decide (this = c)) as [<-|Hne].
    + by rewrite the_container_set_container_eq.
    + by rewrite the_container_set_container_ne.
  - intros c. destruct (decide (this = c)) as [<-|Hne].
    + rewrite the_container_set_container_eq. simpl. by apply insert_subseteq.
    + by rewrite the_container_set_container_ne.
Qed.

Lemma M_extends_singleton_at this key : M_extends (singleton_at this key).
Proof.
  intros w r w' H. unfold singleton_at in H.
  destruct (_singletons (the_container w this) !! key); simplify_eq;
    apply extends_refl.
Qed.

Section extension.
Variable E : classes.
Variable GetService' : cid → type_info → M shared_ptr.
Hypothesis GetService'_extends : ∀ c T, M_extends (GetService' c T).

Lemma M_extends_exec p : M_extends (exec GetService' p).
Proof.
  induction p as [v|o k IH|c T k IH|c T k IH]; simpl.
  - apply M_extends_ret.
  - apply M_extends_bind; [apply M_extends_alloc | done].
  - apply M_extends_bind; [apply GetService'_extends | done].
  - apply M_extends_bind;
      [apply M_extends_required, GetService'_extends | done].
Qed.

Lemma M_extends_call0 f : M_extends (call0 GetService' f).
Proof.
  unfold call0. apply M_extends_bind; [apply M_extends_log|].
  intros _. apply M_extends_exec.
Qed.

Lemma M_extends_call1 f c : M_extends (call1 GetService' f c).
Proof.
  unfold call1. apply M_extends_bind; [apply M_extends_log|].
  intros _. apply M_extends_exec.
Qed.

Lemma M_extends_static_instance site T (init : M shared_ptr) :
  M_extends init → M_extends (static_instance site T init).
Proof.
  intros Hinit w r w' H. unfold static_instance in H.
  destruct (statics w !! (site, T)) as [[|instance]|] eqn:Hslot.
  - simplify_eq. apply extends_refl.
  - simplify_eq. apply extends_refl.
  - pose proof (extends_set_static (site, T) initializing w Hslot) as H0.
    destruct (init _) as [[[instance|e|] w1]|] eqn:Hrun; simplify_eq;
      apply Hinit in Hrun; pose proof (extends_trans _ _ _ H0 Hrun) as H1;
      [| |done].
    + destruct H1 as (Hs & Hc & Hi). split; [done|]. split; [done|].
      intros k p Hk. simpl. rewrite lookup_insert_ne; [by apply Hi|].
      congruence.
    + destruct H1 as (Hs & Hc & Hi). split; [done|]. split; [done|].
      intros k p Hk. simpl. rewrite lookup_delete_ne; [by apply Hi|].
      congruence.
Qed.

Lemma M_extends_transient_creator Base Derived this :
  M_extends (transient_creator E GetService' Base Derived this).
Proof.
  unfold transient_creator. apply M_extends_bind; [apply M_extends_log|].
  intros _. apply M_extends_bind; [apply M_extends_exec|].
  intros p. apply M_extends_ret.
Qed.

Lemma M_extends_singleton_creator Base Derived this :
  M_extends (singleton_creator E GetService' Base Derived this).
Proof.
  intros w r w' H. unfold singleton_creator in H.
  destruct (_singletons (the_container w this) !! hash_code Base).
  - by eapply M_extends_singleton_at.
  - revert H. apply M_extends_bind; [apply M_extends_transient_creator|].
    intros a. apply M_extends_bind; [apply M_extends_emplace_singleton|].
    intros _. apply M_extends_singleton_at.
Qed.

Lemma M_extends_invoke cr : M_extends (invoke E GetService' cr).
Proof.
  destruct cr as [B D this|B D this|T i|T i|T f|T f|T f this|T f this]; simpl.
  - apply M_extends_transient_creator.
  - apply M_extends_singleton_creator.
  - apply M_extends_bind; [|intros; apply M_extends_ret].
    intros w0 r0 w0' H0. unfold alloc in H0. simplify_eq.
    by apply extends_same.
  - apply M_extends_ret.
  - apply M_extends_bind; [apply M_extends_call0 | intros; apply M_extends_ret].
  - apply M_extends_bind;
      [apply M_extends_static_instance, M_extends_call0
      | intros; apply M_extends_ret].
  - apply M_extends_bind; [apply M_extends_call1 | intros; apply M_extends_ret].
  - apply M_extends_bind;
      [apply M_extends_static_instance, M_extends_call1
      | intros; apply M_extends_ret].
Qed.

Lemma M_extends_GetService_body c Base :
  M_extends (GetService_body E GetService' c Base).
Proof.
  intros w r w' H. unfold GetService_body in H.
  destruct (_services (the_container w c) !! hash_code Base) as [cr|].
  - revert H. apply M_extends_bind;
      [apply M_extends_invoke | apply M_extends_any_cast].
  - simplify_eq. apply extends_refl.
Qed.
End extension.

Lemma M_extends_GetService E fuel c Base : M_extends (GetService E fuel c Base).
Proof.
  revert c Base. induction fuel as [|fuel IH]; intros c Base.
  - intros w r w' H. done.
  - intros w r w' H. rewrite GetService_unfold in H.
    by eapply M_extends_GetService_body.
Qed.

Lemma extends_emplace_service c key cr w :
  extends w (emplace_service c key cr w).
Proof.
  unfold emplace_service.
  destruct (_services (the_container w c) !! key) eqn:Hkey;
    [apply extends_refl|].
  split; [|split]; [| |done].
  - intros c'. destruct (decide (c = c')) as [<-|Hne].
    + rewrite the_container_set_container_eq. simpl. by apply insert_subseteq.
    + by rewrite the_container_set_container_ne.
  - intros c'. destruct (decide (c = c')) as [<-|Hne].
    + by rewrite the_container_set_container_eq.
    + by rewrite the_container_set_container_ne.
Qed.

(** X1. Nothing the process does removes or replaces a registration, a
    cached singleton or the value of an initialized [static] variable: in
    every later state, every container still maps each registered type
    identity to the same creator and each cached key to the same handle, and
    every initialized [static] variable still holds the same instance. *)
Theorem evolution_extends w w' : evolves w w' → extends w w'.
Proof.
  induction 1 as [w|o w w' _ IH|r c w w' _ IH|E fuel c Base w r w1 w' Hget _ IH].
  - apply extends_refl.
  - eapply extends_trans; [|exact IH]. by apply extends_same.
  - eapply extends_trans; [|exact IH]. rewrite register_emplace.
    apply extends_emplace_service.
  - eapply extends_trans; [|exact IH]. by eapply M_extends_GetService.
Qed.

Lemma evolution_extends_witness :
  evolves alpha_registered alpha_resolved ∧
  extends alpha_registered alpha_resolved.
Proof.
  assert (evolves alpha_registered alpha_resolved) as Hev.
  { eapply (evolves_GetService app 1 0 IAlpha); [reflexivity|apply evolves_refl]. }
  split; [exact Hev|]. exact (evolution_extends _ _ Hev).
Defined.

(** ** Cached singletons *)

(** X3. In every state of a process, a container whose entry for [Base] is
    the closure of [GetSingletonCreator<Base, Derived>] and whose cache has
    an entry under the hash code of [Base] answers [GetService<Base>()] with
    the cached handle: the cast succeeds and nothing changes, no producer is
    called. *)
Theorem cached_singleton_is_returned E fuel c Base Derived this a w :
  reachable w →
  _services (the_container w c) !! hash_code Base
  = Some (SingletonCreator Base Derived this) →
  _singletons (the_container w c) !! hash_code Base = Some a →
  GetService E (S fuel) c Base w = Some (Normal (any_value a), w).
Proof.
  intros Hreach Hentry Hcache.
  destruct (reachable_cache_consistent w Hreach) as [H1 H2].
  destruct (H1 _ _ _ _ _ Hentry) as [-> _].
  destruct (H2 _ _ _ Hcache) as (B & D & Hs & Ht).
  assert (B = Base) as -> by congruence.
  eapply GetService_singleton_type_cached; [exact Hentry|].
  rewrite Hcache. by destruct a; simpl in *; subst.
Qed.

Lemma cached_singleton_is_returned_witness :
  ∃ w, GetService app 1 0 IService singleton_service = Some (Normal (Some 0), w) ∧
       reachable w ∧
       _singletons (the_container w 0) !! hash_code IService
       = Some (make_any IService (Some 0)) ∧
       GetService app 1 0 IService w = Some (Normal (Some 0), w).
Proof.
  eexists. split; [reflexivity|].
  assert (reachable singleton_service) as Hreach
    by apply (reachable_register (singleton_type IService Service)), reachable_empty.
  match goal with |- reachable ?w ∧ _ => assert (reachable w) as Hreach' end.
  { eapply (reachable_GetService app 1 0 IService); [exact Hreach|reflexivity]. }
  split; [exact Hreach'|]. split; [reflexivity|].
  eapply (cached_singleton_is_returned app 0 0 IService Service 0
            (make_any IService (Some 0))); [exact Hreach'|reflexivity..].
Defined.

(** X6. [GetRequiredService<T>()] never returns a null handle: when it
    returns, the handle is not null and is the one [GetService<T>()] returns,
    in the same state. *)
Theorem required_service_is_not_null E fuel c T w p w' :
  GetRequiredService E fuel c T w = Some (Normal p, w') →
  p ≠ nullptr ∧ GetService E fuel c T w = Some (Normal p, w').
Proof.
  unfold GetRequiredService, required, bind, throw, ret.
  destruct (GetService E fuel c T w) as [[[[l|]|e|] w1]|]; intros H;
    by simplify_eq.
Qed.

Lemma required_service_is_not_null_witness :
  ∃ w', GetRequiredService app 1 0 IService transient_service
        = Some (Normal (Some 0), w') ∧
        Some 0 ≠ nullptr ∧
        GetService app 1 0 IService transient_service = Some (Normal (Some 0), w').
Proof.
  eexists. split; [reflexivity|].
  apply (required_service_is_not_null app 1 0 IService transient_service).
  reflexivity.
Defined.

(** ** Transient resolutions, any number of times *)

(** X7. For a type registered transient by concrete type, through the primary
    [CreateInstance], [n] consecutive resolutions return [n] new objects at
    consecutive addresses, pairwise distinct, each default-constructed, and
    call [CreateInstance] [n] times. *)
Theorem transient_type_times E fuel n c Base Derived this w :
  _services (the_container w c) !! hash_code Base
  = Some (TransientCreator Base Derived this) →
  specialization E Base Derived = None →
  ∃ w',
    GetService_times E (S fuel) n c Base w
    = Some (Normal (Some <$> seq (length (heap w)) n), w') ∧
    NoDup (Some <$> seq (length (heap w)) n) ∧
    heap w' = heap w ++ replicate n (default_ctor E Derived) ∧
    calls w' = calls w ++ replicate n (CreateInstance_called Base Derived this).
Proof.
  intros Hentry Hspec. revert w Hentry.
  induction n as [|n IH]; intros w Hentry.
  - exists w. simpl. rewrite !app_nil_r. repeat split; [constructor].
  - destruct (IH (set_heap (heap w ++ [default_ctor E Derived])
                    (set_calls (calls w ++ [CreateInstance_called Base Derived this]) w)))
      as (w' & Hrun & _ & Hheap & Hcalls); [exact Hentry|].
    exists w'. split; [|split; [|split]].
    + simpl. unfold bind.
      rewrite (GetService_transient_type _ _ _ _ _ _ _ Hentry Hspec).
      fold (GetService_times E (S fuel) n c Base). rewrite Hrun. simpl.
      rewrite length_app, Nat.add_1_r. reflexivity.
    + apply (NoDup_fmap_2 _), NoDup_seq.
    + rewrite Hheap. simpl. by rewrite <- app_assoc.
    + rewrite Hcalls. simpl. by rewrite <- app_assoc.
Qed.

Lemma transient_type_times_witness :
  _services (the_container transient_service 0) !! hash_code IService
  = Some (TransientCreator IService Service 0) ∧
  ∃ w',
    GetService_times app 1 3 0 IService transient_service
    = Some (Normal [Some 0; Some 1; Some 2], w') ∧
    NoDup [Some 0; Some 1; Some 2] ∧
    heap w' = [Object Service 0 []; Object Service 0 []; Object Service 0 []] ∧
    calls w' = [CreateInstance_called IService Service 0;
                CreateInstance_called IService Service 0;
                CreateInstance_called IService Service 0].
Proof.
  split; [reflexivity|].
  apply (transient_type_times app 0 3 0 IService Service 0 transient_service);
    reflexivity.
Defined.

(** ** The [static] variable of the singleton factories *)

(** X8. Once the [static] variable of a singleton factory overload is
    initialized for [T], every container whose entry for [T] was made by
    that overload answers any number of resolutions with the value of the
    variable and leaves the state as it is, whatever factory the entry
    holds: that factory is not called. *)
Theorem initialized_static_answers_every_container E fuel n c T w cr site p :
  _services (the_container w c) !! hash_code T = Some cr →
  (∃ f, cr = StaticFunctionCreator T f ∧ site = in_AddSingleton_function) ∨
  (∃ f this, cr = StaticContainerFunctionCreator T f this ∧
             site = in_AddSingleton_container_function) →
  statics w !! (site, T) = Some (initialized p) →
  GetService_times E (S fuel) n c T w = Some (Normal (replicate n p), w).
Proof.
  intros Hentry Hcr Hslot. apply GetService_times_fixed.
  by eapply GetService_static_initialized.
Qed.

Lemma initialized_static_answers_every_container_witness :
  ∃ w, GetService app 1 0 IService two_containers_container_function
       = Some (Normal (Some 0), w) ∧
       statics w !! (in_AddSingleton_container_function, IService)
       = Some (initialized (Some 0)) ∧
       GetService_times app 1 4 1 IService w
       = Some (Normal [Some 0; Some 0; Some 0; Some 0], w).
Proof.
  eexists. split; [reflexivity|]. split; [reflexivity|].
  eapply (initialized_static_answers_every_container app 0 4 1 IService _ _
            in_AddSingleton_container_function (Some 0));
    [reflexivity| |reflexivity].
  right. by eexists _, _.
Defined.

(** X9. When the factory of a singleton throws during the first resolution,
    the exception reaches the caller and the [static] variable is left
    uninitialized: nothing is memoized, and the next resolution runs a
    factory again. *)
Theorem failed_initialization_is_not_memoized
    E fuel c T w cr site (init : M shared_ptr) e w1 :
  _services (the_container w c) !! hash_code T = Some cr →
  (∃ f, cr = StaticFunctionCreator T f ∧ site = in_AddSingleton_function ∧
        init = call0 (GetService E fuel) f) ∨
  (∃ f this, cr = StaticContainerFunctionCreator T f this ∧
             site = in_AddSingleton_container_function ∧
             init = call1 (GetService E fuel) f this) →
  statics w !! (site, T) = None →
  init (set_statics (<[(site, T) := initializing]> (statics w)) w)
  = Some (Throw e, w1) →
  ∃ w',
    GetService E (S fuel) c T w = Some (Throw e, w') ∧
    statics w' !! (site, T) = None ∧
    GetService E (S fuel) c T w'
    = match init (set_statics (<[(site, T) := initializing]> (statics w')) w') with
      | Some (Normal p, w2) =>
          Some (Normal p, set_statics (<[(site, T) := initialized p]> (statics w2)) w2)
      | Some (Throw e', w2) =>
          Some (Throw e', set_statics (delete (site, T) (statics w2)) w2)
      | other => other
      end.
Proof.
  intros Hentry Hcr Hslot Hinit.
  exists (set_statics (delete (site, T) (statics w1)) w1).
  assert (statics (set_statics (delete (site, T) (statics w1)) w1) !! (site, T) = None)
    as Hslot' by (simpl; apply lookup_delete_eq).
  assert (_services (the_container (set_statics (delete (site, T) (statics w1)) w1) c)
            !! hash_code T = Some cr) as Hentry'.
  { rewrite the_container_set_statics.
    assert (M_preserves init) as Hpres.
    { destruct Hcr as [(f & _ & _ & ->)|(f & this & _ & _ & ->)].
      - apply M_preserves_call0, GetService_preserves.
      - apply M_preserves_call1, GetService_preserves. }
    destruct (Hpres _ _ _ Hinit) as [-> _].
    by rewrite the_container_set_statics. }
  split; [|split; [exact Hslot'|]].
  - rewrite (GetService_entry _ _ _ _ _ _ Hentry).
    destruct Hcr as [(f & -> & -> & ->)|(f & this & -> & -> & ->)]; simpl;
      unfold bind, static_instance; by rewrite Hslot, Hinit.
  - rewrite (GetService_entry _ _ _ _ _ _ Hentry').
    destruct Hcr as [(f & -> & -> & ->)|(f & this & -> & -> & ->)];
      cbn [invoke]; unfold bind, static_instance; rewrite Hslot';
      match goal with |- context [call0 ?g ?f ?w0] =>
        destruct (call0 g f w0) as [[[p|e'|] w2]|]
      | |- context [call1 ?g ?f ?t ?w0] =>
        destruct (call1 g f t w0) as [[[p|e'|] w2]|] end;
      try done; unfold ret, any_cast; simpl; by rewrite decide_True.
Qed.

Lemma failed_initialization_is_not_memoized_witness :
  _services (the_container outer_without_inner 0) !! hash_code IOuter
  = Some (StaticFunctionCreator IOuter
            (make_from_required 1 0 IInner (λ dep, Object Outer 0 [dep]))) ∧
  statics outer_without_inner !! (in_AddSingleton_function, IOuter) = None ∧
  ∃ w',
    GetService app 2 0 IOuter outer_without_inner
    = Some (Throw (runtime_error "No implementation registered for IInner"), w') ∧
    statics w' !! (in_AddSingleton_function, IOuter) = None.
Proof.
  split; [reflexivity|]. split; [reflexivity|].
  edestruct failed_initialization_is_not_memoized
    with (E := app) (fuel := 1) (c := 0) (T := IOuter)
         (w := outer_without_inner) (site := in_AddSingleton_function)
         (e := runtime_error "No implementation registered for IInner")
    as (w' & H1 & H2 & _).
  - reflexivity.
  - left. eexists. split; [reflexivity|]. split; reflexivity.
  - reflexivity.
  - reflexivity.
  - exists w'. split; [exact H1 | exact H2].
Defined.

(** X11. A singleton factory that resolves, on its first call, the type it is
    the factory of re-enters the declaration of its [static] variable while
    the variable is being initialized: the resolution is undefined.  The
    container does not detect the cycle. *)
Theorem reentrant_static_initialization_is_undefined E fuel c T f k w :
  _services (the_container w c) !! hash_code T = Some (StaticFunctionCreator T f) →
  body0 f = CallGetService c T k →
  statics w !! (in_AddSingleton_function, T) = None →
  ∃ w', GetService E (S (S fuel)) c T w = Some (Undefined, w').
Proof.
  intros Hentry Hbody Hslot. eexists.
  rewrite (GetService_entry _ _ _ _ _ _ Hentry). simpl.
  unfold bind at 1. unfold bind at 1. unfold static_instance at 1.
  rewrite Hslot. unfold call0. rewrite Hbody. simpl.
  unfold bind at 1. unfold log at 1. cbv beta.
  unfold bind at 1.
  rewrite (GetService_entry E fuel c T _ (StaticFunctionCreator T f));
    [|exact Hentry].
  simpl. unfold bind at 1. unfold bind at 1. unfold static_instance.
  simpl. rewrite lookup_insert_eq. reflexivity.
Qed.

Lemma reentrant_static_initialization_is_undefined_witness :
  _services (the_container self_dependent_factory 0) !! hash_code IService
  = Some (StaticFunctionCreator IService
            (make_from_container 1 0 IService (λ dep, Object Service 0 [dep]))) ∧
  statics self_dependent_factory !! (in_AddSingleton_function, IService) = None ∧
  ∃ w', GetService app 2 0 IService self_dependent_factory = Some (Undefined, w').
Proof.
  split; [reflexivity|]. split; [reflexivity|].
  eapply (reentrant_static_initialization_is_undefined app 0 0 IService);
    reflexivity.
Defined.

(** ** Circular dependencies through [CreateInstance] *)

(** X10. When [CreateInstance<Base, Derived>] is specialized to resolve
    [Base] from the container on which [Base] is registered by concrete type
    (transient, or singleton and not yet realized), [GetService<Base>()]
    never returns: every resolution starts another one before anything is
    cached, and no bound on the nesting gives a result. *)
Theorem circular_creation_never_returns E fuel c Base Derived this f k cr w :
  specialization E Base Derived = Some f →
  f this = CallGetService c Base k →
  _services (the_container w c) !! hash_code Base = Some cr →
  cr = TransientCreator Base Derived this ∨
  (cr = SingletonCreator Base Derived this ∧
   _singletons (the_container w this) !! hash_code Base = None) →
  GetService E fuel c Base w = None.
Proof.
  intros Hspec Hf. revert w. induction fuel as [|fuel IH]; intros w Hentry Hcr;
    [done|].
  assert (transient_creator E (GetService E fuel) Base Derived this w = None)
    as Hnone.
  { unfold transient_creator, CreateInstance. rewrite Hspec, Hf. simpl.
    unfold bind at 1. unfold log at 1. cbv beta.
    unfold bind at 1. unfold bind at 1.
    rewrite IH; [done|exact Hentry|].
    destruct Hcr as [?|[? ?]]; [by left|by right]. }
  rewrite (GetService_entry _ _ _ _ _ _ Hentry).
  destruct Hcr as [->|[-> Hcache]]; simpl; unfold bind at 1.
  - by rewrite Hnone.
  - unfold singleton_creator. rewrite Hcache. unfold bind at 1.
    by rewrite Hnone.
Qed.

Lemma circular_creation_never_returns_witness :
  _services (the_container singleton_service 0) !! hash_code IService
  = Some (SingletonCreator IService Service 0) ∧
  _singletons (the_container singleton_service 0) !! hash_code IService = None ∧
  GetService circular_app 50 0 IService singleton_service = None.
Proof.
  split; [reflexivity|]. split; [reflexivity|].
  eapply (circular_creation_never_returns circular_app 50 0 IService Service 0);
    [reflexivity|reflexivity|reflexivity|].
  right. split; reflexivity.
Defined.

(** ** Order of registrations *)

Lemma emplace_service_commute c1 k1 cr1 c2 k2 cr2 w :
  c1 ≠ c2 ∨ k1 ≠ k2 →
  emplace_service c1 k1 cr1 (emplace_service c2 k2 cr2 w)
  = emplace_service c2 k2 cr2 (emplace_service c1 k1 cr1 w).
Proof.
  intros Hne. destruct (decide (c1 = c2)) as [<-|Hc].
  - destruct Hne as [?|Hk]; [done|].
    unfold emplace_service.
    destruct (_services (the_container w c1) !! k1) eqn:H1;
      destruct (_services (the_container w c1) !! k2) eqn:H2;
      rewrite ?the_container_set_container_eq; simpl;
      rewrite ?lookup_insert_ne by done; rewrite ?H1, ?H2; try done.
    unfold set_container. simpl. rewrite !insert_insert_eq.
    by rewrite (insert_insert_ne _ k1 k2).
  - unfold emplace_service.
    destruct (_services (the_container w c1) !! k1) eqn:H1;
      destruct (_services (the_container w c2) !! k2) eqn:H2;
      rewrite ?the_container_set_container_ne by done; rewrite ?H1, ?H2;
      try done.
    unfold set_container. simpl. by rewrite (insert_insert_ne _ c1 c2).
Qed.

(** X12. Two registrations on different containers, or for types with
    different hash codes, give the same state in either order. *)
Theorem registrations_commute r1 c1 r2 c2 w :
  c1 ≠ c2 ∨ hash_code (service_type r1) ≠ hash_code (service_type r2) →
  register r1 c1 (register r2 c2 w) = register r2 c2 (register r1 c1 w).
Proof. intros Hne. rewrite !register_emplace. by apply emplace_service_commute. Qed.

Lemma registrations_commute_witness :
  hash_code IInner ≠ hash_code IOuter ∧
  AddSingleton IInner Inner 0
    (AddSingleton_container_function IOuter (make_outer 1) 0 empty_world)
  = AddSingleton_container_function IOuter (make_outer 1) 0
      (AddSingleton IInner Inner 0 empty_world).
Proof.
  split; [done|].
  apply (registrations_commute (singleton_type IInner Inner) 0
           (singleton_container_function IOuter (make_outer 1)) 0 empty_world).
  by right.
Defined.

(** ** Hash collisions *)

(** X13. When a type [U] has the hash code of a registered type, in any state
    of a process: registering [U] on that container changes nothing, and
    [GetService<U>()] and [GetRequiredService<U>()] run the creator of the
    registered type and, when it returns, throw [bad_any_cast]; they never
    return the other type's object. *)
Theorem colliding_type_is_unreachable E fuel c r U w a w' :
  reachable w →
  _services (the_container w c) !! hash_code (service_type r)
  = Some (creator_of r c) →
  hash_code U = hash_code (service_type r) →
  U ≠ service_type r →
  invoke E (GetService E fuel) (creator_of r c) w = Some (Normal a, w') →
  GetService E (S fuel) c U w = Some (Throw bad_any_cast, w') ∧
  GetRequiredService E (S fuel) c U w = Some (Throw bad_any_cast, w') ∧
  ∀ r', service_type r' = U → register r' c w = w.
Proof.
  intros Hreach Hentry Hhash Hne Hinvoke.
  assert (any_type a = service_type r) as Htype.
  { eapply invoke_registered_type; [|exact Hentry|exact Hinvoke].
    by apply reachable_cache_consistent. }
  assert (GetService E (S fuel) c U w = Some (Throw bad_any_cast, w')) as Hget.
  { rewrite (GetService_entry E fuel c U w (creator_of r c)) by by rewrite Hhash.
    unfold bind. rewrite Hinvoke. unfold any_cast.
    rewrite decide_False; [done|]. congruence. }
  split; [exact Hget|]. split.
  - unfold GetRequiredService, required, bind. by rewrite Hget.
  - intros r' <-. rewrite register_emplace, Hhash.
    by eapply emplace_service_present.
Qed.

Lemma colliding_type_is_unreachable_witness :
  reachable alpha_registered ∧
  hash_code IBeta = hash_code IAlpha ∧ IBeta ≠ IAlpha ∧
  GetService app 1 0 IBeta alpha_registered
  = Some (Throw bad_any_cast, alpha_resolved) ∧
  GetRequiredService app 1 0 IBeta alpha_registered
  = Some (Throw bad_any_cast, alpha_resolved) ∧
  AddSingleton_instance IBeta (Some 0) 0 alpha_registered = alpha_registered.
Proof.
  assert (reachable alpha_registered) as Hreach
    by apply (reachable_register (transient_type IAlpha Alpha)), reachable_empty.
  split; [exact Hreach|]. split; [reflexivity|]. split; [done|].
  destruct (colliding_type_is_unreachable app 0 0 (transient_type IAlpha Alpha)
              IBeta alpha_registered (make_any IAlpha (Some 0)) alpha_resolved)
    as (Hget & Hreq & Hreg); [exact Hreach|reflexivity|reflexivity|done|reflexivity|].
  split; [exact Hget|]. split; [exact Hreq|].
  by apply (Hreg (singleton_instance IBeta (Some 0))).
Defined.

(** ** Singletons from the registration on *)

(** X14. After [AddSingleton(instance)] on a container with no entry for the
    type, any number of resolutions return the handle that was registered,
    null or not, and leave the state as the registration left it: nothing is
    created, copied or cached. *)
Theorem singleton_instance_after_registration E fuel n c T instance w :
  _services (the_container w c) !! hash_code T = None →
  GetService_times E (S fuel) n c T (AddSingleton_instance T instance c w)
  = Some (Normal (replicate n instance), AddSingleton_instance T instance c w).
Proof.
  intros Hnone. apply singleton_instance_times.
  by apply emplace_service_absent.
Qed.

Lemma singleton_instance_after_registration_witness :
  _services (the_container (set_heap [Object Node 7 []] empty_world) 0)
    !! hash_code Node = None ∧
  GetService_times app 1 3 0 Node
    (AddSingleton_instance Node (Some 0) 0 (set_heap [Object Node 7 []] empty_world))
  = Some (Normal [Some 0; Some 0; Some 0],
          AddSingleton_instance Node (Some 0) 0
            (set_heap [Object Node 7 []] empty_world)).
Proof.
  split; [reflexivity|].
  apply (singleton_instance_after_registration app 0 3 0 Node (Some 0)
           (set_heap [Object Node 7 []] empty_world)).
  reflexivity.
Defined.

Lemma singleton_type_after_registration_witness :
  reachable empty_world ∧
  _services (the_container empty_world 0) !! hash_code IService = None ∧
  ∃ w',
    GetService_times app 1 3 0 IService (AddSingleton IService Service 0 empty_world)
    = Some (Normal [Some 0; Some 0; Some 0], w') ∧
    calls w' = [CreateInstance_called IService Service 0].
Proof.
  split; [apply reachable_empty|]. split; [reflexivity|].
  apply (singleton_type_after_registration app 0 2 0 IService Service empty_world);
    [apply reachable_empty|reflexivity|reflexivity].
Defined.

Lemma singleton_type_is_per_container_witness :
  0 ≠ 1 ∧
  ∃ w1 w2,
    GetService app 1 0 IInner two_compositions = Some (Normal (Some 0), w1) ∧
    GetService app 1 1 IInner w1 = Some (Normal (Some 1), w2) ∧
    calls w2 = [CreateInstance_called IInner Inner 0;
                CreateInstance_called IInner Inner 1].
Proof.
  split; [done|].
  apply (singleton_type_is_per_container app 0 0 1 IInner Inner Inner
           two_compositions); [done|reflexivity..].
Defined.

(** X15. In any state of a process, whatever [CreateInstance<Base, Derived>]
    does (it may be specialized, resolve dependencies, return null): when a
    resolution of a type registered as a singleton by concrete type returns a
    handle, that handle is in the cache of the container, and any number of
    further resolutions return it and change nothing. *)
Theorem realized_singleton_is_stable E fuel n c Base Derived this w p w' :
  reachable w →
  _services (the_container w c) !! hash_code Base
  = Some (SingletonCreator Base Derived this) →
  GetService E (S fuel) c Base w = Some (Normal p, w') →
  _singletons (the_container w' c) !! hash_code Base = Some (make_any Base p) ∧
  GetService_times E (S fuel) n c Base w' = Some (Normal (replicate n p), w').
Proof.
  intros Hreach Hentry Hget.
  assert (reachable w') as Hreach' by by eapply reachable_GetService.
  destruct (proj1 (reachable_cache_consistent w Hreach) _ _ _ _ _ Hentry) as [-> _].
  assert (_services (the_container w' c) !! hash_code Base
          = Some (SingletonCreator Base Derived c)) as Hentry'.
  { destruct (GetService_preserves E (S fuel) c Base w _ _ Hget) as [-> _].
    exact Hentry. }
  assert (∃ a, _singletons (the_container w' c) !! hash_code Base = Some a ∧
               p = any_value a) as (a & Hcache & ->).
  { rewrite (GetService_entry _ _ _ _ _ _ Hentry) in Hget.
    destruct (bind_inv _ _ _ _ _ Hget) as [(a & w1 & H1 & H2)|[(? & _ & ?)|[_ ?]]];
      try done.
    assert (w1 = w' ∧ p = any_value a) as [-> ->].
    { unfold any_cast in H2. case_decide; unfold ret, throw in H2; by simplify_eq. }
    exists a. split; [|done]. simpl in H1.
    destruct (singleton_creator_inv _ _ _ _ _ _ _ _ H1)
      as [(a0 & Ha0 & ? & ->)|[(_ & _ & Hno)|(_ & p0 & w0 & a0 & _ & _ & Ha0 & ?)]];
      simplify_eq; try done. by specialize (Hno a). }
  destruct (proj2 (reachable_cache_consistent w' Hreach') _ _ _ Hcache)
    as (B & D & Hs & Ht).
  assert (a = make_any Base (any_value a)) as Ha.
  { destruct a; simpl in *. f_equal. congruence. }
  split; [by rewrite Hcache, Ha at 1|].
  apply GetService_times_fixed.
  eapply GetService_singleton_type_cached; [exact Hentry'|].
  by rewrite Hcache, Ha at 1.
Qed.

Lemma realized_singleton_is_stable_witness :
  reachable singleton_service ∧
  ∃ w',
    GetService app 1 0 IService singleton_service = Some (Normal (Some 0), w') ∧
    _singletons (the_container w' 0) !! hash_code IService
    = Some (make_any IService (Some 0)) ∧
    GetService_times app 1 3 0 IService w'
    = Some (Normal [Some 0; Some 0; Some 0], w').
Proof.
  assert (reachable singleton_service) as Hreach
    by apply (reachable_register (singleton_type IService Service)), reachable_empty.
  split; [exact Hreach|]. eexists. split; [reflexivity|].
  apply (realized_singleton_is_stable app 0 3 0 IService Service 0
           singleton_service (Some 0)); [exact Hreach|reflexivity|reflexivity].
Defined.

(** ** Transient instances, any number of times *)

(** X16. For a type registered transient from a pre-built instance, [n]
    consecutive resolutions return [n] new objects at consecutive addresses,
    pairwise distinct and none the registered instance; the objects that
    existed are as they were, no producer is called and no container
    changes. *)
Theorem transient_instance_times E fuel n c T instance w :
  _services (the_container w c) !! hash_code T = Some (InstanceCopier T instance) →
  ∃ w',
    GetService_times E (S fuel) n c T w
    = Some (Normal (Some <$> seq (length (heap w)) n), w') ∧
    NoDup (Some <$> seq (length (heap w)) n) ∧
    (∀ l, instance = Some l → l < length (heap w) →
          instance ∉ (Some <$> seq (length (heap w)) n)) ∧
    heap w `prefix_of` heap w' ∧ length (heap w') = length (heap w) + n ∧
    calls w' = calls w ∧ containers w' = containers w ∧ statics w' = statics w.
Proof.
  intros Hentry.
  assert (∃ w',
    GetService_times E (S fuel) n c T w
    = Some (Normal (Some <$> seq (length (heap w)) n), w') ∧
    heap w `prefix_of` heap w' ∧ length (heap w') = length (heap w) + n ∧
    calls w' = calls w ∧ containers w' = containers w ∧ statics w' = statics w)
    as (w' & Hrun & Hrest).
  { revert w Hentry. induction n as [|n IH]; intros w Hentry.
    - exists w. simpl. by rewrite Nat.add_0_r.
    - destruct (IH (set_heap (heap w ++ [ptr_ctor E T instance (heap w)]) w))
        as (w' & Hrun & Hpre & Hlen & Hcalls & Hcont & Hstat); [exact Hentry|].
      exists w'. split; [|split; [|split]].
      + simpl. unfold bind.
        rewrite (GetService_transient_instance _ _ _ _ _ _ Hentry).
        fold (GetService_times E (S fuel) n c T). rewrite Hrun. simpl.
        rewrite length_app, Nat.add_1_r. reflexivity.
      + etrans; [|exact Hpre]. simpl. by apply prefix_app_r.
      + rewrite Hlen. simpl. rewrite length_app. simpl. lia.
      + done. }
  exists w'. split; [exact Hrun|]. split; [apply (NoDup_fmap_2 _), NoDup_seq|].
  split; [|exact Hrest].
  intros l -> Hl Hin. apply list_elem_of_fmap in Hin as (l' & [= <-] & Hin).
  apply elem_of_seq in Hin. lia.
Qed.

Lemma transient_instance_times_witness :
  _services (the_container node_instance_transient 0) !! hash_code Node
  = Some (InstanceCopier Node (Some 0)) ∧
  ∃ w',
    GetService_times app 1 2 0 Node node_instance_transient
    = Some (Normal [Some 1; Some 2], w') ∧
    length (heap w') = 3 ∧
    calls w' = calls node_instance_transient.
Proof.
  split; [reflexivity|].
  destruct (transient_instance_times app 0 2 0 Node (Some 0) node_instance_transient)
    as (w' & Hrun & _ & _ & _ & Hlen & Hcalls & _); [reflexivity|].
  exists w'. split; [exact Hrun|]. split; [exact Hlen | exact Hcalls].
Defined.

End cppdi.
